(** * Bike traffic map: the minute-bucketed traffic aggregation of [map.js]

    A shallow embedding of the aggregation core of [src/map.js]
    ([minutesSinceMidnight], the bucket-building pass, [filterByMinute],
    [computeStationTraffic]) and the properties its specification states
    about it.

    JavaScript arrays are lists, plain objects are finite maps from property
    names to values, the three globals of the script are the fields of a
    record that is threaded through a small state-and-exception monad. *)

From stdpp Require Import base numbers option list gmap strings.

Local Open Scope Z_scope.

(** ** Values and objects *)

(** The JavaScript values that occur as properties of a station record.
    Numbers that take part in a computation here are integers (counts);
    [VOther] stands for any value the code only copies (a fractional
    coordinate, a nested object), named by its JSON text. *)
Inductive Value :=
| VUndefined
| VNumber (n : Z)
| VString (s : string)
| VOther (json : string).

#[global] Instance Value_eq_dec : EqDecision Value.
Proof. solve_decision. Defined.

(** A plain object: property name to value.  A station is such an object,
    with (at least) the property [short_name]. *)
Abbreviation Obj := (gmap string Value).

(** A [Date] holds a time value in milliseconds, or is an Invalid Date (its
    time value is NaN), which is what [new Date(text)] yields for a text that
    does not parse. *)
Inductive Date :=
| InvalidDate
| DateOf (tv : Z).

#[global] Instance Date_eq_dec : EqDecision Date.
Proof. solve_decision. Defined.

(** A row of the trip CSV after the row conversion of the loader: the two
    station ids are strings, the two timestamps are [Date] objects. *)
Record Trip := mkTrip {
  start_station_id : string;
  end_station_id : string;
  started_at : Date;
  ended_at : Date
}.

#[global] Instance Trip_eq_dec : EqDecision Trip.
Proof. solve_decision. Defined.

(** ** Array primitives *)

(** [Array.prototype.slice]: a negative index counts from the end, both
    indices are clamped to the length, an absent [end] is the length. *)
Definition clamp_index (len k : Z) : Z :=
  if k <? 0 then Z.max (len + k) 0 else Z.min k len.

Definition slice {A} (arr : list A) (start : Z) (end_ : option Z) : list A :=
  let len := Z.of_nat (length arr) in
  let k := clamp_index len start in
  let final := clamp_index len (default len end_) in
  take (Z.to_nat (final - k)) (drop (Z.to_nat k) arr).

(** [Array.prototype.flat()] on an array of arrays whose elements are not
    arrays themselves: one level of flattening. *)
Definition flat {A} (arr : list (list A)) : list A := concat arr.

(** A JavaScript number that indexes an array: [None] is NaN.  [arr[k]] is an
    element only when [k] is an integer in [0, length). *)
Definition as_index (k : option Z) : option nat :=
  i ← k; if 0 <=? i then Some (Z.to_nat i) else None.

(** [table[k].push(x)]: [None] when [table[k]] is [undefined], in which case
    the method call raises a TypeError. *)
Definition push_at {A} (table : list (list A)) (k : option Z) (x : A)
  : option (list (list A)) :=
  i ← as_index k;
  bucket ← table !! i;
  Some (<[i := bucket ++ [x]]> table).

(** ** [d3.rollup] *)

(** [d3.group(values, key)]: a map from key to the values with that key, in
    input order. *)
Definition group {A} (values : list A) (key : A → string)
  : gmap string (list A) :=
  foldl (λ m v, <[key v := default [] (m !! key v) ++ [v]]> m) ∅ values.

(** [d3.rollup(values, reduce, key)]: [reduce] applied to every group. *)
Definition rollup {A B} (values : list A) (reduce : list A → B)
    (key : A → string) : gmap string B :=
  reduce <$> group values key.

(** [m.get(id)] on a map whose keys are strings: only a string can be
    found. *)
Definition map_get {B} (m : gmap string B) (id : option Value) : option B :=
  match id with
  | Some (VString s) => m !! s
  | _ => None
  end.

(** ** The window query *)

(** [filterByMinute(tripsByMinute, minute)]; [%] is the truncating
    remainder.  [minute] is an integer-valued number; the integer arithmetic
    here is that of the source as long as [minute - 60 + 1440] and
    [minute + 60] stay within the integers a JavaScript number holds exactly
    (absolute value at most 2^53), as they do on the slider's range. *)
Definition filterByMinute {A} (tripsByMinute : list (list A)) (minute : Z)
  : list A :=
  if minute =? -1 then flat tripsByMinute
  else
    let minMinute := Z.rem (minute - 60 + 1440) 1440 in
    let maxMinute := Z.rem (minute + 60) 1440 in
    if minMinute >? maxMinute then
      let beforeMidnight := slice tripsByMinute minMinute None in
      let afterMidnight := slice tripsByMinute 0 (Some maxMinute) in
      flat (beforeMidnight ++ afterMidnight)
    else
      flat (slice tripsByMinute minMinute (Some maxMinute)).

(** ** Globals and the execution monad *)

(** The three [let] globals of the script. *)
Record Globals := mkGlobals {
  departuresByMinute : list (list Trip);
  arrivalsByMinute : list (list Trip);
  stations : list Obj
}.

(** [Array.from({ length: 1440 }, () => [])] calls the arrow function once
    per slot, so the 1440 buckets are distinct arrays: a list of lists. *)
Definition empty_table : list (list Trip) := replicate 1440 [].

Definition initial : Globals :=
  {| departuresByMinute := empty_table;
     arrivalsByMinute := empty_table;
     stations := [] |}.

Inductive Completion (A : Type) :=
| Normal (a : A)
| TypeError.
Arguments Normal {A} a.
Arguments TypeError {A}.

(** A computation reads and writes the globals and completes normally or by
    raising; the globals it leaves are returned in both cases. *)
Definition Exec (A : Type) : Type := Globals → Completion A * Globals.

#[global] Instance Exec_ret : MRet Exec := λ A a g, (Normal a, g).

#[global] Instance Exec_bind : MBind Exec := λ A B f m g,
  match m g with
  | (Normal a, g') => f a g'
  | (TypeError, g') => (TypeError, g')
  end.

Definition read {A} (proj : Globals → A) : Exec A := λ g, (Normal (proj g), g).

Definition raise {A} : Exec A := λ g, (TypeError, g).

Definition write_departures (t : list (list Trip)) : Exec unit := λ g,
  (Normal tt, {| departuresByMinute := t;
                 arrivalsByMinute := arrivalsByMinute g;
                 stations := stations g |}).

Definition write_arrivals (t : list (list Trip)) : Exec unit := λ g,
  (Normal tt, {| departuresByMinute := departuresByMinute g;
                 arrivalsByMinute := t;
                 stations := stations g |}).

Definition write_stations (s : list Obj) : Exec unit := λ g,
  (Normal tt, {| departuresByMinute := departuresByMinute g;
                 arrivalsByMinute := arrivalsByMinute g;
                 stations := s |}).

(** [arr.forEach(callback)]. *)
Fixpoint forEach {A} (arr : list A) (callback : A → Exec unit) : Exec unit :=
  match arr with
  | [] => mret tt
  | x :: rest => callback x;; forEach rest callback
  end.

(** ** The traffic aggregator *)

(** The callback of [stations.map] in [computeStationTraffic]: a new object
    with the properties of [station] and the three traffic properties. *)
Definition with_traffic (departures arrivals : gmap string Z) (station : Obj)
  : Obj :=
  let id := station !! "short_name"%string in
  let depCount := default 0 (map_get departures id) in
  let arrCount := default 0 (map_get arrivals id) in
  <["totalTraffic"%string := VNumber (depCount + arrCount)]>
    (<["arrivals"%string := VNumber arrCount]>
       (<["departures"%string := VNumber depCount]> station)).

(** [computeStationTraffic(stations, timeFilter)].  Both call sites pass the
    filter, so the default [-1] of the parameter is not modelled. *)
Definition computeStationTraffic (stations : list Obj) (timeFilter : Z)
  : Exec (list Obj) :=
  deps ← read departuresByMinute;
  let departures :=
    rollup (filterByMinute deps timeFilter)
           (λ v, Z.of_nat (length v)) start_station_id in
  arrs ← read arrivalsByMinute;
  let arrivals :=
    rollup (filterByMinute arrs timeFilter)
           (λ v, Z.of_nat (length v)) end_station_id in
  mret (map (with_traffic departures arrivals) stations).

(** The data part of [updateScatterPlot(timeFilter)]: the aggregation over
    the global station list. *)
Definition updateScatterPlot (timeFilter : Z) : Exec (list Obj) :=
  sts ← read stations;
  computeStationTraffic sts timeFilter.

(** ** The time bucketer *)

(** A minute-of-day as the data model has it. *)
Definition valid_minute (n : option Z) : Prop :=
  ∃ m, n = Some m ∧ 0 ≤ m ≤ 1439.

Section Bucketer.

(** The local time zone adjustment of the host at a time value (it varies
    with daylight saving), in milliseconds. *)
Variable LocalTZA : Z → Z.

Definition msPerMinute : Z := 60000.
Definition msPerHour : Z := 3600000.

(** [date.getHours()] and [date.getMinutes()]: NaN on an Invalid Date. *)
Definition getHours (date : Date) : option Z :=
  match date with
  | InvalidDate => None
  | DateOf tv => Some (((tv + LocalTZA tv) `div` msPerHour) `mod` 24)
  end.

Definition getMinutes (date : Date) : option Z :=
  match date with
  | InvalidDate => None
  | DateOf tv => Some (((tv + LocalTZA tv) `div` msPerMinute) `mod` 60)
  end.

(** [minutesSinceMidnight(date)]; arithmetic on NaN is NaN. *)
Definition minutesSinceMidnight (date : Date) : option Z :=
  h ← getHours date;
  m ← getMinutes date;
  Some (h * 60 + m).

(** The derived attributes of a trip. *)
Definition start_minute (trip : Trip) : option Z :=
  minutesSinceMidnight (started_at trip).

Definition end_minute (trip : Trip) : option Z :=
  minutesSinceMidnight (ended_at trip).

(** The callback of [trips.forEach] in the loader. *)
Definition bucket_trip (trip : Trip) : Exec unit :=
  let started := minutesSinceMidnight (started_at trip) in
  let ended := minutesSinceMidnight (ended_at trip) in
  deps ← read departuresByMinute;
  match push_at deps started trip with
  | None => raise
  | Some deps' =>
      write_departures deps';;
      arrs ← read arrivalsByMinute;
      match push_at arrs ended trip with
      | None => raise
      | Some arrs' => write_arrivals arrs'
      end
  end.

(** Both timestamps of the trip yield a valid minute-of-day. *)
Definition valid_timestamps (trip : Trip) : Prop :=
  valid_minute (start_minute trip) ∧ valid_minute (end_minute trip).

(** The bucket-building pass: [trips.forEach(trip => ...)]. *)
Definition bucket_trips (trips : list Trip) : Exec unit :=
  forEach trips bucket_trip.

(** The loader up to the first aggregation: the station list is stored, the
    buckets are filled, the unfiltered traffic is computed. *)
Definition load (stationData : list Obj) (trips : list Trip)
  : Exec (list Obj) :=
  write_stations stationData;;
  bucket_trips trips;;
  sts ← read stations;
  computeStationTraffic sts (-1).

End Bucketer.

(** ** Notions of the specification *)

(** Bucket [i] of a table (empty outside the table). *)
Definition bucket {A} (table : list (list A)) (i : nat) : list A :=
  default [] (table !! i).

(** The concatenation of the buckets in the index range [lo, hi). *)
Definition buckets_range {A} (table : list (list A)) (lo hi : nat) : list A :=
  flat_map (bucket table) (seq lo (hi - lo)).

(** The Window Query contract as the specification words it, with the
    mathematical [mod]. *)
Definition window_query {A} (table : list (list A)) (centerMinute : Z)
  : list A :=
  if decide (centerMinute = -1) then buckets_range table 0 1440
  else
    let minMinute := (centerMinute - 60 + 1440) `mod` 1440 in
    let maxMinute := (centerMinute + 60) `mod` 1440 in
    if decide (minMinute ≤ maxMinute)
    then buckets_range table (Z.to_nat minMinute) (Z.to_nat maxMinute)
    else buckets_range table (Z.to_nat minMinute) 1440
         ++ buckets_range table 0 (Z.to_nat maxMinute).

(** The table whose bucket [i] holds just the index [i]: running the window
    query of the source on it yields the bucket indices the query
    traverses, in traversal order. *)
Definition index_table : list (list nat) := (λ i, [i]) <$> seq 0 1440.

Definition window_indices (minute : Z) : list nat :=
  filterByMinute index_table minute.

(** "The result includes buckets [lo] through [hi]", both ends included. *)
Definition includes_buckets {A} (result : list A) (table : list (list A))
    (lo hi : nat) : Prop :=
  ∀ i : nat, (lo ≤ i ≤ hi)%nat → ∀ x, x ∈ bucket table i → x ∈ result.

(** The number of [values] whose key is the identifier [id]. *)
Definition count_for {A} (key : A → string) (id : option Value)
    (values : list A) : Z :=
  Z.of_nat (length (filter (λ v, id = Some (VString (key v))) values)).

(** The three properties [computeStationTraffic] sets on a record. *)
Definition traffic_keys : list string :=
  ["departures"; "arrivals"; "totalTraffic"]%string.

(** Reading a count off an output record, and summing it over the output. *)
Definition number_field (k : string) (o : Obj) : Z :=
  match o !! k with
  | Some (VNumber n) => n
  | _ => 0
  end.

Definition sum_field (k : string) (out : list Obj) : Z :=
  foldr Z.add 0 (number_field k <$> out).

(** The identifiers of a station list; the data model makes [short_name] a
    unique identifier. *)
Definition short_names (stations : list Obj) : list (option Value) :=
  (λ station : Obj, station !! "short_name"%string) <$> stations.

Definition unique_short_names (stations : list Obj) : Prop :=
  NoDup (short_names stations).

(** The globals after the script's declarations and the station load. *)
Definition fresh (stationData : list Obj) : Globals :=
  {| departuresByMinute := empty_table;
     arrivalsByMinute := empty_table;
     stations := stationData |}.

(** A session of slider movements: one aggregation pass per movement. *)
Fixpoint slider_session (moves : list Z) : Exec (list (list Obj)) :=
  match moves with
  | [] => mret []
  | timeFilter :: rest =>
      out ← updateScatterPlot timeFilter;
      outs ← slider_session rest;
      mret (out :: outs)
  end.

(** The array of buckets that [filterByMinute] flattens: its value just
    before the final [.flat()]. *)
Definition selected {A} (arr : list A) (minute : Z) : list A :=
  if minute =? -1 then arr
  else
    let minMinute := Z.rem (minute - 60 + 1440) 1440 in
    let maxMinute := Z.rem (minute + 60) 1440 in
    if minMinute >? maxMinute
    then slice arr minMinute None ++ slice arr 0 (Some maxMinute)
    else slice arr minMinute (Some maxMinute).

(** ** The radius scale's domain *)

(** [d3.max(values, valueof)]: a value whose accessor yields [undefined] or
    [null] ([None]) is skipped; the result is [undefined] ([None]) when
    nothing is left. *)
Definition d3_max {A} (values : list A) (valueof : A → option Z) : option Z :=
  foldl (λ max value,
           match valueof value with
           | None => max
           | Some v =>
               match max with
               | None => Some v
               | Some m => if m <? v then Some v else Some m
               end
           end) None values.

(** The accessor [d => d.totalTraffic] on a record whose [totalTraffic] is a
    number (as [computeStationTraffic] sets it) or is absent. *)
Definition totalTraffic_of (d : Obj) : option Z :=
  match d !! "totalTraffic"%string with
  | Some (VNumber n) => Some n
  | _ => None
  end.

(** The upper end of the domain the loader gives the radius scale:
    [d3.max(allTripsStations, d => d.totalTraffic)]. *)
Definition radius_domain_max (allTripsStations : list Obj) : option Z :=
  d3_max allTripsStations totalTraffic_of.

(** ** Further notions *)

(** Minute [m] lies in the window around [centerMinute]: from 60 minutes
    before it (included) to 60 minutes after it (excluded), around the
    clock. *)
Definition in_window (centerMinute m : Z) : Prop :=
  (m - centerMinute + 60) `mod` 1440 < 120.

Definition minute_in_window (centerMinute : Z) (m : option Z) : Prop :=
  match m with
  | Some m => in_window centerMinute m
  | None => False
  end.

#[global] Instance minute_in_window_dec centerMinute m :
  Decision (minute_in_window centerMinute m).
Proof. destruct m; unfold minute_in_window, in_window; apply _. Defined.

(** Both timestamp texts of the row parsed. *)
Definition dates_parse (trip : Trip) : Prop :=
  started_at trip ≠ InvalidDate ∧ ended_at trip ≠ InvalidDate.

(** ** Sample data

    The scenario of the specification: three stations, a trip from A at
    minute 700 to B at minute 705, and a trip that leaves B ten minutes after
    midnight and arrives at C at minute 59.  The host is taken to be on
    UTC. *)

Definition utc : Z → Z := λ _, 0.

Definition at_minute (m : Z) : Date := DateOf (m * 60000).

Definition station_named (name : string) : Obj :=
  {[ "short_name"%string := VString name;
     "lat"%string := VOther "42.36";
     "lon"%string := VOther "-71.09" ]}.

Definition sample_stations : list Obj :=
  [station_named "A"; station_named "B"; station_named "C"].

Definition trip_noon : Trip :=
  mkTrip "A" "B" (at_minute 700) (at_minute 705).

Definition trip_night : Trip :=
  mkTrip "B" "C" (at_minute 10) (at_minute 59).

Definition sample_trips : list Trip := [trip_noon; trip_night].

(** A row whose [started_at] text did not parse. *)
Definition trip_unparsed : Trip :=
  mkTrip "C" "A" InvalidDate (at_minute 5).

Definition sample_globals : Globals :=
  (bucket_trips utc sample_trips (fresh sample_stations)).2.

(** A station list in which station A is listed twice. *)
Definition stations_with_duplicate : list Obj :=
  [station_named "A"; station_named "B"; station_named "A"].


(** * Properties *)

(** ** Slices *)

Lemma slice_fmap {A B} (f : A → B) (arr : list A) start end_ :
  slice (f <$> arr) start end_ = f <$> slice arr start end_.
Proof.
  unfold slice. by rewrite length_fmap, fmap_take, fmap_drop.
Qed.

Lemma slice_seq_upto (n : nat) (a b : Z) :
  0 ≤ a ≤ b → b ≤ Z.of_nat n →
  slice (seq 0 n) a (Some b) = seq (Z.to_nat a) (Z.to_nat (b - a)).
Proof.
  intros Hab Hb. unfold slice, clamp_index. rewrite length_seq. simpl.
  destruct (Z.ltb_spec a 0), (Z.ltb_spec b 0); try lia.
  rewrite !Z.min_l by lia.
  rewrite drop_seq, take_seq. f_equal; lia.
Qed.

Lemma slice_seq_from (n : nat) (a : Z) :
  0 ≤ a ≤ Z.of_nat n →
  slice (seq 0 n) a None = seq (Z.to_nat a) (n - Z.to_nat a).
Proof.
  intros Ha. unfold slice, clamp_index. rewrite length_seq. simpl.
  destruct (Z.ltb_spec a 0), (Z.ltb_spec (Z.of_nat n) 0); try lia.
  rewrite !Z.min_l by lia.
  rewrite drop_seq, take_seq. f_equal; lia.
Qed.

Lemma slice_sublist {A} (arr : list A) start end_ :
  slice arr start end_ `sublist_of` arr.
Proof.
  unfold slice. etrans; [apply sublist_take | apply sublist_drop].
Qed.

(** ** The window query, bucket by bucket *)

Lemma filterByMinute_selected {A} (table : list (list A)) minute :
  filterByMinute table minute = flat (selected table minute).
Proof.
  unfold filterByMinute, selected.
  destruct (minute =? -1); [done|]. simpl.
  by destruct (_ >? _).
Qed.

Lemma selected_fmap {A B} (f : A → B) (arr : list A) minute :
  selected (f <$> arr) minute = f <$> selected arr minute.
Proof.
  unfold selected. destruct (minute =? -1); [done|]. simpl.
  destruct (_ >? _); by rewrite ?fmap_app, !slice_fmap.
Qed.

Lemma concat_singletons {A} (l : list A) : concat ((λ x, [x]) <$> l) = l.
Proof. induction l as [|x l IH]; csimpl; [done | by rewrite IH]. Qed.

Lemma table_fmap_bucket {A} (table : list (list A)) :
  table = bucket table <$> seq 0 (length table).
Proof.
  apply list_eq. intros i. rewrite list_lookup_fmap.
  destruct (table !! i) as [b|] eqn:Hi.
  - rewrite lookup_seq_lt by (by eapply lookup_lt_Some).
    simpl. unfold bucket. by rewrite Hi.
  - rewrite lookup_seq_ge; [done|]. by apply lookup_ge_None.
Qed.

Lemma window_indices_selected minute :
  window_indices minute = selected (seq 0 1440) minute.
Proof.
  unfold window_indices, index_table.
  rewrite filterByMinute_selected, selected_fmap. apply concat_singletons.
Qed.

Lemma flat_map_concat_fmap {A B} (f : A → list B) (l : list A) :
  flat_map f l = concat (f <$> l).
Proof. induction l as [|x l IH]; csimpl; [done | by rewrite IH]. Qed.

(** On a table of 1440 buckets the query returns the buckets at the
    traversed indices, in traversal order. *)
Lemma filterByMinute_indices {A} (table : list (list A)) minute :
  length table = 1440%nat →
  filterByMinute table minute = flat_map (bucket table) (window_indices minute).
Proof.
  intros Hlen.
  rewrite window_indices_selected, flat_map_concat_fmap, <- selected_fmap.
  rewrite <- Hlen, <- table_fmap_bucket. apply filterByMinute_selected.
Qed.

Lemma window_bounds (centerMinute : Z) :
  0 ≤ centerMinute ≤ 1439 →
  Z.rem (centerMinute - 60 + 1440) 1440 = (centerMinute - 60 + 1440) `mod` 1440
  ∧ Z.rem (centerMinute + 60) 1440 = (centerMinute + 60) `mod` 1440
  ∧ 0 ≤ (centerMinute - 60 + 1440) `mod` 1440 < 1440
  ∧ 0 ≤ (centerMinute + 60) `mod` 1440 < 1440.
Proof.
  intros Hc. rewrite !Z.rem_mod_nonneg by lia.
  repeat split; try apply Z.mod_pos_bound; lia.
Qed.

Lemma selected_seq (n : nat) (centerMinute : Z) :
  Z.of_nat n = 1440 →
  0 ≤ centerMinute ≤ 1439 →
  selected (seq 0 n) centerMinute =
    if decide ((centerMinute - 60 + 1440) `mod` 1440
               ≤ (centerMinute + 60) `mod` 1440)
    then seq (Z.to_nat ((centerMinute - 60 + 1440) `mod` 1440))
             (Z.to_nat ((centerMinute + 60) `mod` 1440)
              - Z.to_nat ((centerMinute - 60 + 1440) `mod` 1440))
    else seq (Z.to_nat ((centerMinute - 60 + 1440) `mod` 1440))
             (n - Z.to_nat ((centerMinute - 60 + 1440) `mod` 1440))
         ++ seq 0 (Z.to_nat ((centerMinute + 60) `mod` 1440)).
Proof.
  intros Hn Hc.
  destruct (window_bounds centerMinute Hc) as (Hmin & Hmax & Bmin & Bmax).
  unfold selected.
  destruct (Z.eqb_spec centerMinute (-1)); [lia|]. cbv zeta.
  rewrite Hmin, Hmax.
  set (minMinute := (centerMinute - 60 + 1440) `mod` 1440) in *.
  set (maxMinute := (centerMinute + 60) `mod` 1440) in *.
  destruct (Z.gtb_spec minMinute maxMinute); case_decide; try lia.
  - rewrite slice_seq_from, slice_seq_upto by lia.
    do 2 f_equal. lia.
  - rewrite slice_seq_upto by lia. f_equal. lia.
Qed.

(** The traversed indices of a window, explicitly. *)
Lemma window_indices_range (centerMinute : Z) :
  0 ≤ centerMinute ≤ 1439 →
  let minMinute := (centerMinute - 60 + 1440) `mod` 1440 in
  let maxMinute := (centerMinute + 60) `mod` 1440 in
  window_indices centerMinute =
    if decide (minMinute ≤ maxMinute)
    then seq (Z.to_nat minMinute) (Z.to_nat maxMinute - Z.to_nat minMinute)
    else seq (Z.to_nat minMinute) (1440 - Z.to_nat minMinute)
         ++ seq 0 (Z.to_nat maxMinute).
Proof.
  intros Hc minMinute maxMinute.
  rewrite window_indices_selected. by apply selected_seq.
Qed.

Lemma buckets_range_indices {A} (table : list (list A)) (lo hi : nat) :
  buckets_range table lo hi = flat_map (bucket table) (seq lo (hi - lo)).
Proof. reflexivity. Qed.

(** C1. On a table of 1440 buckets [filterByMinute] meets the Window Query
    contract: for the sentinel [-1] it returns all 1440 buckets in index
    order; for a center minute in [0, 1439] it returns the buckets
    [minMinute, maxMinute) when [minMinute <= maxMinute], and the buckets
    [minMinute, 1440) followed by [0, maxMinute) otherwise, where
    [minMinute = (centerMinute - 60 + 1440) mod 1440] and
    [maxMinute = (centerMinute + 60) mod 1440]. *)
Theorem filterByMinute_window_query {A} (table : list (list A)) (minute : Z) :
  length table = 1440%nat →
  -1 ≤ minute ≤ 1439 →
  filterByMinute table minute = window_query table minute.
Proof.
  intros Hlen Hminute. rewrite filterByMinute_indices by done.
  unfold window_query. case_decide as Hs.
  - subst minute. rewrite window_indices_selected.
    rewrite buckets_range_indices, Nat.sub_0_r. reflexivity.
  - rewrite window_indices_range by lia. cbv zeta.
    case_decide.
    + by rewrite buckets_range_indices.
    + by rewrite flat_map_app, !buckets_range_indices, Nat.sub_0_r.
Qed.

Lemma filterByMinute_window_query_witness :
  filterByMinute (departuresByMinute sample_globals) 1430
  = buckets_range (departuresByMinute sample_globals) 1370 1440
    ++ buckets_range (departuresByMinute sample_globals) 0 50.
Proof.
  apply (filterByMinute_window_query (departuresByMinute sample_globals) 1430).
  - vm_compute. reflexivity.
  - lia.
Defined.

Lemma window_bounds_cases (centerMinute : Z) :
  0 ≤ centerMinute ≤ 1439 →
  let minMinute := (centerMinute - 60 + 1440) `mod` 1440 in
  let maxMinute := (centerMinute + 60) `mod` 1440 in
  (0 ≤ minMinute ≤ maxMinute ∧ maxMinute - minMinute = 120
   ∧ maxMinute < 1440)
  ∨ (maxMinute < minMinute ∧ 1440 - minMinute + maxMinute = 120
     ∧ 0 ≤ maxMinute ∧ minMinute < 1440).
Proof.
  intros Hc minMinute maxMinute. subst minMinute maxMinute.
  destruct (decide (centerMinute < 60)) as [Hlo|Hlo].
  - right.
    replace (centerMinute - 60 + 1440) with (centerMinute + 1380) by lia.
    rewrite !Z.mod_small by lia. lia.
  - destruct (decide (centerMinute < 1380)) as [Hmid|Hhi].
    + left.
      replace (centerMinute - 60 + 1440) with (centerMinute - 60 + 1 * 1440)
        by lia.
      rewrite Z_mod_plus_full, !Z.mod_small by lia. lia.
    + right.
      replace (centerMinute - 60 + 1440) with (centerMinute - 60 + 1 * 1440)
        by lia.
      replace (centerMinute + 60) with (centerMinute - 1380 + 1 * 1440)
        by lia.
      rewrite !Z_mod_plus_full, !Z.mod_small by lia. lia.
Qed.

(** C5. For every center minute in [0, 1439] the bucket indices the query
    traverses are pairwise distinct and there are exactly 120 of them,
    whether or not the window wraps around midnight. *)
Theorem window_has_120_buckets (centerMinute : Z) :
  0 ≤ centerMinute ≤ 1439 →
  NoDup (window_indices centerMinute)
  ∧ length (window_indices centerMinute) = 120%nat.
Proof.
  intros Hc. rewrite window_indices_range by done. cbv zeta.
  destruct (window_bounds_cases centerMinute Hc) as [(H1&H2&H3)|(H1&H2&H3&H4)];
    case_decide; try lia.
  - split; [apply NoDup_seq | rewrite length_seq; lia].
  - split.
    + apply NoDup_app. split_and!; try apply NoDup_seq.
      intros i [Hi _]%elem_of_seq [_ Hj]%elem_of_seq. lia.
    + rewrite length_app, !length_seq. lia.
Qed.

Lemma window_has_120_buckets_witness :
  NoDup (window_indices 1430) ∧ length (window_indices 1430) = 120%nat.
Proof. apply (window_has_120_buckets 1430). lia. Defined.

(** C3 (amended). On a table of 1440 buckets, [filterByMinute(buckets, 0)]
    returns buckets 1380 through 1439 followed by 0 through 59, and
    [filterByMinute(buckets, 1439)] returns buckets 1379 through 1439
    followed by 0 through 58: [minMinute] is included, [maxMinute] (60, and
    59) is excluded. *)
Theorem window_boundaries {A} (buckets : list (list A)) :
  length buckets = 1440%nat →
  window_indices 0 = seq 1380 60 ++ seq 0 60
  ∧ window_indices 1439 = seq 1379 61 ++ seq 0 59
  ∧ filterByMinute buckets 0
    = buckets_range buckets 1380 1440 ++ buckets_range buckets 0 60
  ∧ filterByMinute buckets 1439
    = buckets_range buckets 1379 1440 ++ buckets_range buckets 0 59.
Proof.
  intros Hlen.
  assert (window_indices 0 = seq 1380 60 ++ seq 0 60) as H0
    by (vm_compute; reflexivity).
  assert (window_indices 1439 = seq 1379 61 ++ seq 0 59) as H1439
    by (vm_compute; reflexivity).
  split_and!; [done | done | |].
  - rewrite filterByMinute_indices, H0, flat_map_app by done. reflexivity.
  - rewrite filterByMinute_indices, H1439, flat_map_app by done. reflexivity.
Qed.

Lemma window_boundaries_witness :
  filterByMinute (arrivalsByMinute sample_globals) 1439
  = buckets_range (arrivalsByMinute sample_globals) 1379 1440
    ++ buckets_range (arrivalsByMinute sample_globals) 0 59.
Proof.
  apply (window_boundaries (arrivalsByMinute sample_globals)).
  vm_compute. reflexivity.
Defined.

(** C3 as stated fails at center minute 1439: bucket 59 is [maxMinute]
    there and is left out.  The sample trip that arrives at minute 59 is in
    arrival bucket 59 and not in the result. *)
Lemma window_boundaries_counterexample :
  length (arrivalsByMinute sample_globals) = 1440%nat
  ∧ trip_night ∈ bucket (arrivalsByMinute sample_globals) 59
  ∧ (trip_night ∉ filterByMinute (arrivalsByMinute sample_globals) 1439)
  ∧ ¬ (includes_buckets
         (filterByMinute (arrivalsByMinute sample_globals) 1439)
         (arrivalsByMinute sample_globals) 0 59).
Proof.
  assert (bucket (arrivalsByMinute sample_globals) 59 = [trip_night]) as Hb
    by (vm_compute; reflexivity).
  assert (filterByMinute (arrivalsByMinute sample_globals) 1439 = []) as Hf
    by (vm_compute; reflexivity).
  split_and!.
  - vm_compute. reflexivity.
  - rewrite Hb. apply list_elem_of_here.
  - rewrite Hf. apply not_elem_of_nil.
  - intros Hinc. specialize (Hinc 59%nat ltac:(lia) trip_night).
    rewrite Hb, Hf in Hinc.
    eapply not_elem_of_nil, Hinc, list_elem_of_here.
Qed.

(** ** Grouping and counting *)

Lemma group_acc_lookup {A} (key : A → string) (values : list A)
    (m : gmap string (list A)) (k : string) :
  default []
    (foldl (λ m v, <[key v := default [] (m !! key v) ++ [v]]> m) m values
     !! k)
  = default [] (m !! k) ++ filter (λ v, key v = k) values.
Proof.
  revert m. induction values as [|v values IH]; intros m.
  - by rewrite filter_nil, app_nil_r.
  - simpl. rewrite IH. destruct (decide (key v = k)) as [Heq|Hne].
    + rewrite Heq, lookup_insert_eq, filter_cons_True by done.
      simpl. by rewrite <- app_assoc.
    + by rewrite lookup_insert_ne, filter_cons_False.
Qed.

Lemma group_lookup {A} (key : A → string) (values : list A) (k : string) :
  default [] (group values key !! k) = filter (λ v, key v = k) values.
Proof. unfold group. by rewrite group_acc_lookup, lookup_empty. Qed.

Lemma rollup_count_lookup {A} (key : A → string) (values : list A) k :
  default 0 (rollup values (λ v, Z.of_nat (length v)) key !! k)
  = Z.of_nat (length (filter (λ v, key v = k) values)).
Proof.
  unfold rollup. rewrite lookup_fmap, <- group_lookup.
  by destruct (group values key !! k).
Qed.

Lemma filter_none {A} (P : A → Prop) `{∀ x, Decision (P x)} (l : list A) :
  (∀ x, ¬ P x) → filter P l = [].
Proof.
  intros HP. induction l as [|x l IH]; [done|].
  by rewrite filter_cons_False.
Qed.

Lemma rollup_count_get {A} (key : A → string) (values : list A) id :
  default 0 (map_get (rollup values (λ v, Z.of_nat (length v)) key) id)
  = count_for key id values.
Proof.
  unfold count_for, map_get.
  destruct id as [[| |s|]|]; try (by rewrite filter_none).
  rewrite rollup_count_lookup.
  do 2 f_equal. apply list_filter_iff. intros v. naive_solver.
Qed.

Lemma submseteq_filter {A} (P : A → Prop) `{∀ x, Decision (P x)}
    (l1 l2 : list A) :
  l1 ⊆+ l2 → filter P l1 ⊆+ filter P l2.
Proof.
  induction 1 as [|x l1 l2 _ IH|x y l|x l1 l2 _ IH|l1 l2 l3 _ IH1 _ IH2].
  - done.
  - rewrite !filter_cons. case_decide; [by constructor | done].
  - rewrite !filter_cons. repeat case_decide; try done. by constructor.
  - rewrite filter_cons. case_decide; [by constructor | done].
  - by etrans.
Qed.

Lemma submseteq_concat {A} (l1 l2 : list (list A)) :
  l1 ⊆+ l2 → concat l1 ⊆+ concat l2.
Proof.
  induction 1 as [|x l1 l2 _ IH|x y l|x l1 l2 _ IH|l1 l2 l3 _ IH1 _ IH2];
    simpl.
  - done.
  - by apply submseteq_skips_l.
  - rewrite !app_assoc, (comm (++) y x). done.
  - by apply submseteq_inserts_l.
  - by etrans.
Qed.

Lemma count_for_nonneg {A} (key : A → string) id (values : list A) :
  0 ≤ count_for key id values.
Proof. unfold count_for. lia. Qed.

Lemma count_for_submseteq {A} (key : A → string) id (l1 l2 : list A) :
  l1 ⊆+ l2 → count_for key id l1 ≤ count_for key id l2.
Proof.
  intros Hsub. unfold count_for.
  apply inj_le, submseteq_length. by apply submseteq_filter.
Qed.

Lemma count_for_Permutation {A} (key : A → string) id (l1 l2 : list A) :
  l1 ≡ₚ l2 → count_for key id l1 = count_for key id l2.
Proof. intros Hp. unfold count_for. by rewrite Hp. Qed.

(** ** A window selects every bucket at most once *)

Lemma slice_from_drop {A} (arr : list A) (a : Z) :
  0 ≤ a → slice arr a None = drop (Z.to_nat a) arr.
Proof.
  intros Ha. unfold slice, clamp_index. simpl.
  destruct (Z.ltb_spec a 0), (Z.ltb_spec (Z.of_nat (length arr)) 0); try lia.
  destruct (decide (a ≤ Z.of_nat (length arr))).
  - rewrite Z.min_id, (Z.min_l a) by lia.
    apply take_ge. rewrite length_drop. lia.
  - rewrite Z.min_id, (Z.min_r a) by lia.
    rewrite !drop_ge by lia. by rewrite take_nil.
Qed.

Lemma slice_upto_take {A} (arr : list A) (b : Z) :
  0 ≤ b → slice arr 0 (Some b) = take (Z.to_nat b) arr.
Proof.
  intros Hb. unfold slice, clamp_index. simpl.
  destruct (Z.ltb_spec b 0); try lia.
  rewrite (Z.min_l 0) by lia. rewrite Z.sub_0_r.
  change (drop (Z.to_nat 0) arr) with arr.
  destruct (decide (b ≤ Z.of_nat (length arr))).
  - by rewrite (Z.min_l b) by lia.
  - rewrite (Z.min_r b), Nat2Z.id by lia.
    rewrite (take_ge arr (length arr)), (take_ge arr (Z.to_nat b)) by lia.
    done.
Qed.

Lemma selected_submseteq {A} (arr : list A) (minute : Z) :
  -1 ≤ minute ≤ 1439 → selected arr minute ⊆+ arr.
Proof.
  intros Hm. unfold selected.
  destruct (Z.eqb_spec minute (-1)); [done|]. cbv zeta.
  destruct (window_bounds minute ltac:(lia)) as (Hmin & Hmax & Bmin & Bmax).
  rewrite Hmin, Hmax.
  set (minMinute := (minute - 60 + 1440) `mod` 1440) in *.
  set (maxMinute := (minute + 60) `mod` 1440) in *.
  destruct (Z.gtb_spec minMinute maxMinute).
  - rewrite slice_from_drop, slice_upto_take by lia.
    rewrite (comm (++)).
    rewrite <- (take_drop (Z.to_nat maxMinute) arr) at 3.
    apply submseteq_skips_l.
    replace (Z.to_nat minMinute)
      with (Z.to_nat maxMinute + (Z.to_nat minMinute - Z.to_nat maxMinute))%nat
      by lia.
    rewrite <- drop_drop. apply submseteq_drop.
  - apply sublist_submseteq, slice_sublist.
Qed.

(** Whatever the table holds, a window returns a sub-multiset of what the
    unfiltered query returns. *)
Lemma filterByMinute_submseteq {A} (table : list (list A)) (minute : Z) :
  -1 ≤ minute ≤ 1439 →
  filterByMinute table minute ⊆+ filterByMinute table (-1).
Proof.
  intros Hm. rewrite !filterByMinute_selected.
  apply submseteq_concat. change (selected table (-1)) with table.
  by apply selected_submseteq.
Qed.

(** ** The aggregator *)

Lemma computeStationTraffic_run (stations : list Obj) timeFilter g :
  computeStationTraffic stations timeFilter g
  = (Normal
       (with_traffic
          (rollup (filterByMinute (departuresByMinute g) timeFilter)
                  (λ v, Z.of_nat (length v)) start_station_id)
          (rollup (filterByMinute (arrivalsByMinute g) timeFilter)
                  (λ v, Z.of_nat (length v)) end_station_id)
        <$> stations),
     g).
Proof. reflexivity. Qed.

Lemma with_traffic_fields {A B} (startKey : A → string) (endKey : B → string)
    (deps : list A) (arrs : list B) (station : Obj) :
  let id := station !! "short_name"%string in
  let record :=
    with_traffic (rollup deps (λ v, Z.of_nat (length v)) startKey)
                 (rollup arrs (λ v, Z.of_nat (length v)) endKey) station in
  record !! "departures"%string = Some (VNumber (count_for startKey id deps))
  ∧ record !! "arrivals"%string = Some (VNumber (count_for endKey id arrs))
  ∧ record !! "totalTraffic"%string
    = Some (VNumber (count_for startKey id deps + count_for endKey id arrs))
  ∧ ∀ k, k ∉ traffic_keys → record !! k = station !! k.
Proof.
  intros id record. subst record. unfold with_traffic. fold id.
  rewrite !rollup_count_get. split_and!.
  - do 2 rewrite lookup_insert_ne by done. by rewrite lookup_insert_eq.
  - rewrite lookup_insert_ne by done. by rewrite lookup_insert_eq.
  - by rewrite lookup_insert_eq.
  - intros k Hk. unfold traffic_keys in Hk.
    rewrite !not_elem_of_cons in Hk. destruct Hk as (?&?&?&_).
    by do 3 rewrite lookup_insert_ne by done.
Qed.

Lemma count_for_no_match {A} (key : A → string) id (values : list A) :
  (∀ v, v ∈ values → id ≠ Some (VString (key v))) →
  count_for key id values = 0.
Proof.
  intros Hno. unfold count_for.
  induction values as [|v values IH]; [done|].
  rewrite filter_cons_False by (apply Hno; left).
  apply IH. intros w Hw. apply Hno. by right.
Qed.

(** C4. For every station list, every time filter and every content of the
    bucket tables, [computeStationTraffic] returns one record per input
    station, at the same position; the record keeps the station's own
    properties and carries [departures], [arrivals] and
    [totalTraffic = departures + arrivals]; a station that no trip of the
    window matches is kept, with all three at 0. *)
Theorem computeStationTraffic_one_record_per_station
    (stations : list Obj) (timeFilter : Z) (g : Globals) :
  ∃ out g',
    computeStationTraffic stations timeFilter g = (Normal out, g')
    ∧ length out = length stations
    ∧ ∀ (i : nat) (station : Obj), stations !! i = Some station →
      ∃ (record : Obj) (d a : Z),
        out !! i = Some record
        ∧ (∀ k, k ∉ traffic_keys → record !! k = station !! k)
        ∧ record !! "departures"%string = Some (VNumber d)
        ∧ record !! "arrivals"%string = Some (VNumber a)
        ∧ record !! "totalTraffic"%string = Some (VNumber (d + a))
        ∧ ((∀ t, t ∈ filterByMinute (departuresByMinute g) timeFilter →
                 station !! "short_name"%string
                 ≠ Some (VString (start_station_id t))) → d = 0)
        ∧ ((∀ t, t ∈ filterByMinute (arrivalsByMinute g) timeFilter →
                 station !! "short_name"%string
                 ≠ Some (VString (end_station_id t))) → a = 0).
Proof.
  eexists _, _. split; [apply computeStationTraffic_run|].
  split; [by rewrite length_fmap|].
  intros i station Hi.
  destruct (with_traffic_fields start_station_id end_station_id
              (filterByMinute (departuresByMinute g) timeFilter)
              (filterByMinute (arrivalsByMinute g) timeFilter) station)
    as (Hd & Ha & Ht & Hk).
  eexists _, _, _. rewrite list_lookup_fmap, Hi. simpl.
  split_and!; [done | exact Hk | exact Hd | exact Ha | exact Ht | |];
    apply count_for_no_match.
Qed.

(** C8. [computeStationTraffic] is deterministic and idempotent: a second
    call with the same station list and time filter, made after the first,
    returns the same output, and so does a call from any state of the
    globals that holds the same two bucket tables. *)
Theorem computeStationTraffic_idempotent
    (stations : list Obj) (timeFilter : Z) (g : Globals) :
  let first := computeStationTraffic stations timeFilter g in
  let second := computeStationTraffic stations timeFilter first.2 in
  second.1 = first.1
  ∧ ∀ g', departuresByMinute g' = departuresByMinute g →
          arrivalsByMinute g' = arrivalsByMinute g →
          (computeStationTraffic stations timeFilter g').1 = first.1.
Proof.
  intros first second. subst first second. split.
  - by rewrite !computeStationTraffic_run.
  - intros g' Hd Ha. by rewrite !computeStationTraffic_run, Hd, Ha.
Qed.

Lemma updateScatterPlot_run (timeFilter : Z) (g : Globals) :
  updateScatterPlot timeFilter g
  = computeStationTraffic (stations g) timeFilter g.
Proof. reflexivity. Qed.

Lemma slider_session_frame (moves : list Z) (g : Globals) :
  ∃ outs, slider_session moves g = (Normal outs, g)
          ∧ length outs = length moves.
Proof.
  induction moves as [|timeFilter moves [outs [IH Hlen]]].
  - by exists [].
  - eexists (_ :: outs). simpl. unfold mbind, Exec_bind.
    rewrite updateScatterPlot_run, computeStationTraffic_run, IH.
    split; [reflexivity | by rewrite <- Hlen].
Qed.

(** C9. Queries and aggregation passes write nothing: after
    [computeStationTraffic], after [updateScatterPlot] and after a whole
    session of slider movements the globals (both bucket tables and the
    station list with its records) are what they were before; every pass
    completes normally, and its output is a list of new records, each
    agreeing with the station it derives from on all but the three traffic
    properties.  [filterByMinute] is a function of its array argument
    ([slice], [concat] and [flat] return new arrays). *)
Theorem queries_leave_inputs_unchanged
    (stations : list Obj) (timeFilter : Z) (moves : list Z) (g : Globals) :
  (computeStationTraffic stations timeFilter g).2 = g
  ∧ (updateScatterPlot timeFilter g).2 = g
  ∧ (slider_session moves g).2 = g
  ∧ (∃ outs, (slider_session moves g).1 = Normal outs
             ∧ length outs = length moves)
  ∧ ∃ out, (computeStationTraffic stations timeFilter g).1 = Normal out
           ∧ Forall2 (λ station record : Obj,
                        ∀ k, k ∉ traffic_keys → record !! k = station !! k)
                     stations out.
Proof.
  destruct (slider_session_frame moves g) as (outs & Hs & Hlen).
  rewrite updateScatterPlot_run, !computeStationTraffic_run, Hs. simpl.
  split_and!; try done.
  - by exists outs.
  - eexists. split; [done|].
    apply Forall2_fmap_r, Forall_Forall2_diag, Forall_forall.
    intros station _.
    destruct (with_traffic_fields start_station_id end_station_id
                (filterByMinute (departuresByMinute g) timeFilter)
                (filterByMinute (arrivalsByMinute g) timeFilter) station)
      as (_ & _ & _ & Hk).
    exact Hk.
Qed.

Lemma number_field_with_traffic {A B} (startKey : A → string)
    (endKey : B → string) (deps : list A) (arrs : list B) (station : Obj) :
  let id := station !! "short_name"%string in
  let record :=
    with_traffic (rollup deps (λ v, Z.of_nat (length v)) startKey)
                 (rollup arrs (λ v, Z.of_nat (length v)) endKey) station in
  number_field "departures" record = count_for startKey id deps
  ∧ number_field "arrivals" record = count_for endKey id arrs
  ∧ number_field "totalTraffic" record
    = count_for startKey id deps + count_for endKey id arrs.
Proof.
  intros id record.
  destruct (with_traffic_fields startKey endKey deps arrs station)
    as (Hd & Ha & Ht & _).
  fold id record in Hd, Ha, Ht. unfold number_field.
  by rewrite Hd, Ha, Ht.
Qed.

(** C10. For every station list, every content of the bucket tables and
    every center minute in [0, 1439], the [departures], [arrivals] and
    [totalTraffic] that [computeStationTraffic(stations, centerMinute)]
    gives a station are at most those that
    [computeStationTraffic(stations, -1)] gives it. *)
Theorem windowed_counts_below_full_day
    (stations : list Obj) (centerMinute : Z) (g : Globals) :
  0 ≤ centerMinute ≤ 1439 →
  ∃ windowed full,
    (computeStationTraffic stations centerMinute g).1 = Normal windowed
    ∧ (computeStationTraffic stations (-1) g).1 = Normal full
    ∧ ∀ (i : nat) (station : Obj), stations !! i = Some station →
      ∃ w f : Obj,
        windowed !! i = Some w ∧ full !! i = Some f
        ∧ number_field "departures" w ≤ number_field "departures" f
        ∧ number_field "arrivals" w ≤ number_field "arrivals" f
        ∧ number_field "totalTraffic" w ≤ number_field "totalTraffic" f.
Proof.
  intros Hc. rewrite !computeStationTraffic_run.
  eexists _, _. split_and!; [reflexivity | reflexivity |].
  intros i station Hi. eexists _, _.
  rewrite !list_lookup_fmap, Hi. simpl.
  split_and!; [reflexivity | reflexivity | | |].
  all: pose proof (number_field_with_traffic start_station_id end_station_id
         (filterByMinute (departuresByMinute g) centerMinute)
         (filterByMinute (arrivalsByMinute g) centerMinute) station)
         as (Hwd & Hwa & Hwt).
  all: pose proof (number_field_with_traffic start_station_id end_station_id
         (filterByMinute (departuresByMinute g) (-1))
         (filterByMinute (arrivalsByMinute g) (-1)) station)
         as (Hfd & Hfa & Hft).
  all: rewrite ?Hwd, ?Hwa, ?Hwt, ?Hfd, ?Hfa, ?Hft.
  all: pose proof (count_for_submseteq start_station_id
         (station !! "short_name"%string) _ _
         (filterByMinute_submseteq (departuresByMinute g) centerMinute
            ltac:(lia))).
  all: pose proof (count_for_submseteq end_station_id
         (station !! "short_name"%string) _ _
         (filterByMinute_submseteq (arrivalsByMinute g) centerMinute
            ltac:(lia))).
  all: lia.
Qed.

(** ** Partitioning a list by a key *)

Lemma filter_all {A} (P : A → Prop) `{∀ x, Decision (P x)} (l : list A) :
  Forall P l → filter P l = l.
Proof.
  induction 1 as [|x l Hx _ IH]; [done|].
  by rewrite filter_cons_True, IH.
Qed.

Lemma filter_key_cons {A K} `{EqDecision K} (h : A → K) (k : K) (ks : list K)
    (l : list A) :
  k ∉ ks →
  filter (λ x, h x = k) l ++ filter (λ x, h x ∈ ks) l
  ≡ₚ filter (λ x, h x ∈ k :: ks) l.
Proof.
  intros Hk. induction l as [|x l IH]; [done|].
  rewrite !filter_cons.
  destruct (decide (h x = k)) as [Hx|Hx].
  - rewrite decide_False by (by rewrite Hx).
    rewrite decide_True by (rewrite Hx; left).
    simpl. by rewrite IH.
  - destruct (decide (h x ∈ ks)) as [Hin|Hin].
    + rewrite decide_True by (by right).
      by rewrite <- Permutation_middle, IH.
    + rewrite decide_False; [done|].
      by intros [?|?]%elem_of_cons.
Qed.

Lemma filter_partition {A K} `{EqDecision K} (h : A → K) (ks : list K)
    (l : list A) :
  NoDup ks →
  flat_map (λ k, filter (λ x, h x = k) l) ks ≡ₚ filter (λ x, h x ∈ ks) l.
Proof.
  induction 1 as [|k ks Hk _ IH]; simpl.
  - rewrite filter_none; [done|]. intros x. apply not_elem_of_nil.
  - rewrite IH. by apply filter_key_cons.
Qed.

Lemma flat_map_fmap {A B C} (f : A → B) (g : B → list C) (l : list A) :
  flat_map g (f <$> l) = flat_map (λ x, g (f x)) l.
Proof. induction l as [|x l IH]; csimpl; [done | by rewrite IH]. Qed.

Lemma flat_map_ext_in {A B} (f g : A → list B) (l : list A) :
  (∀ x, f x = g x) → flat_map f l = flat_map g l.
Proof. intros Hfg. induction l as [|x l IH]; simpl; [done | by rewrite Hfg, IH]. Qed.

Lemma bucket_insert {A} (table : list (list A)) (i j : nat) (b : list A) :
  (i < length table)%nat →
  bucket (<[i := b]> table) j = if decide (i = j) then b else bucket table j.
Proof.
  intros Hi. unfold bucket. rewrite list_lookup_insert.
  destruct (decide (i = j)) as [->|Hne].
  - by rewrite decide_True.
  - rewrite decide_False; [done|]. by intros [? _].
Qed.

Lemma concat_buckets {A} (table : list (list A)) :
  concat table = flat_map (bucket table) (seq 0 (length table)).
Proof.
  rewrite flat_map_concat_fmap. by rewrite <- table_fmap_bucket.
Qed.

Lemma flat_map_bucket_beyond {A} (table : list (list A)) (lo n : nat) :
  (length table ≤ lo)%nat → flat_map (bucket table) (seq lo n) = [].
Proof.
  revert lo. induction n as [|n IH]; intros lo Hlo; simpl; [done|].
  rewrite IH by lia. unfold bucket.
  by rewrite (lookup_ge_None_2 table lo).
Qed.

(** Distinct bucket indices select a sub-multiset of the table content. *)
Lemma flat_map_bucket_submseteq {A} (table : list (list A)) (idxs : list nat) :
  NoDup idxs → flat_map (bucket table) idxs ⊆+ concat table.
Proof.
  intros Hnd.
  set (n := (length table + S (max_list idxs))%nat).
  assert (concat table = flat_map (bucket table) (seq 0 n)) as ->.
  { unfold n. rewrite seq_app, flat_map_app, <- concat_buckets.
    rewrite flat_map_bucket_beyond by (simpl; lia). by rewrite app_nil_r. }
  rewrite !flat_map_concat_fmap.
  apply submseteq_concat, fmap_submseteq, NoDup_submseteq; [done|].
  intros i Hi. apply elem_of_seq.
  pose proof (max_list_elem_of_le i idxs Hi). unfold n. lia.
Qed.

(** ** The bucket-building pass *)

Lemma push_at_bucket {A} (h : A → option Z) (table : list (list A)) (x : A) :
  length table = 1440%nat →
  valid_minute (h x) →
  ∃ table',
    push_at table (h x) x = Some table'
    ∧ length table' = 1440%nat
    ∧ ∀ i : nat,
        bucket table' i
        = bucket table i ++ filter (λ y, h y = Some (Z.of_nat i)) [x].
Proof.
  intros Hlen (m & Hm & Hrange).
  assert (Z.to_nat m < length table)%nat as Hlt by lia.
  destruct (lookup_lt_is_Some_2 table _ Hlt) as [b Hb].
  exists (<[Z.to_nat m := b ++ [x]]> table). split_and!.
  - unfold push_at, as_index. rewrite Hm. simpl.
    destruct (Z.leb_spec 0 m); [|lia]. simpl. by rewrite Hb.
  - by rewrite length_insert.
  - intros i. rewrite bucket_insert by done.
    rewrite filter_cons, filter_nil, Hm.
    destruct (decide (Z.to_nat m = i)) as [<-|Hne].
    + rewrite decide_True by (f_equal; lia).
      unfold bucket. by rewrite Hb.
    + rewrite decide_False; [by rewrite app_nil_r|].
      intros [=]. lia.
Qed.

Lemma push_at_NaN {A} (table : list (list A)) (x : A) :
  push_at table None x = None.
Proof. reflexivity. Qed.

Lemma forEach_app {A} (l1 l2 : list A) (callback : A → Exec unit) g :
  forEach (l1 ++ l2) callback g
  = match forEach l1 callback g with
    | (Normal _, g') => forEach l2 callback g'
    | (TypeError, g') => (TypeError, g')
    end.
Proof.
  revert g. induction l1 as [|x l1 IH]; intros g; [done|].
  simpl. unfold mbind, Exec_bind.
  destruct (callback x g) as [[[]|] g']; [apply IH | done].
Qed.

Section BucketerProperties.

Variable LocalTZA : Z → Z.

Lemma minutesSinceMidnight_range (tv : Z) :
  valid_minute (minutesSinceMidnight LocalTZA (DateOf tv)).
Proof.
  eexists. split; [reflexivity|].
  pose proof (Z.mod_pos_bound ((tv + LocalTZA tv) `div` msPerHour) 24).
  pose proof (Z.mod_pos_bound ((tv + LocalTZA tv) `div` msPerMinute) 60).
  lia.
Qed.

Lemma minutesSinceMidnight_cases (date : Date) :
  valid_minute (minutesSinceMidnight LocalTZA date) ∧ date ≠ InvalidDate
  ∨ minutesSinceMidnight LocalTZA date = None ∧ date = InvalidDate.
Proof.
  destruct date as [|tv]; [by right | left].
  split; [apply minutesSinceMidnight_range | done].
Qed.

(** A timestamp fails to yield a valid minute-of-day exactly when it is an
    Invalid Date; a parsed date is never out of range. *)
Lemma valid_minute_iff (date : Date) :
  valid_minute (minutesSinceMidnight LocalTZA date) ↔ date ≠ InvalidDate.
Proof.
  destruct (minutesSinceMidnight_cases date) as [[Hv Hd]|[Hn Hd]].
  - done.
  - rewrite Hn, Hd. split; [by intros (m & [=] & _) | done].
Qed.

Lemma bucket_trip_run (trip : Trip) (g : Globals) :
  bucket_trip LocalTZA trip g
  = match push_at (departuresByMinute g) (start_minute LocalTZA trip) trip
    with
    | None => (TypeError, g)
    | Some deps' =>
        match push_at (arrivalsByMinute g) (end_minute LocalTZA trip) trip
        with
        | None =>
            (TypeError, {| departuresByMinute := deps';
                           arrivalsByMinute := arrivalsByMinute g;
                           stations := stations g |})
        | Some arrs' =>
            (Normal tt, {| departuresByMinute := deps';
                           arrivalsByMinute := arrs';
                           stations := stations g |})
        end
    end.
Proof.
  unfold bucket_trip, start_minute, end_minute, mbind, Exec_bind, read.
  destruct (push_at (departuresByMinute g) _ trip); [|done].
  simpl. by destruct (push_at (arrivalsByMinute g) _ trip).
Qed.

Lemma valid_timestamps_cases (trip : Trip) :
  valid_timestamps LocalTZA trip
  ∨ start_minute LocalTZA trip = None
  ∨ valid_minute (start_minute LocalTZA trip)
    ∧ end_minute LocalTZA trip = None.
Proof.
  unfold valid_timestamps, start_minute, end_minute.
  destruct (minutesSinceMidnight_cases (started_at trip)) as [[Hs _]|[Hs _]];
    [|by right; left].
  destruct (minutesSinceMidnight_cases (ended_at trip)) as [[He _]|[He _]];
    [by left | by right; right].
Qed.

Lemma not_valid_minute_None : ¬ valid_minute None.
Proof. by intros (m & [=] & _). Qed.

Lemma bucket_trip_valid (trip : Trip) (g0 : Globals) :
  length (departuresByMinute g0) = 1440%nat →
  length (arrivalsByMinute g0) = 1440%nat →
  valid_timestamps LocalTZA trip →
  ∃ g1,
    bucket_trip LocalTZA trip g0 = (Normal tt, g1)
    ∧ stations g1 = stations g0
    ∧ length (departuresByMinute g1) = 1440%nat
    ∧ length (arrivalsByMinute g1) = 1440%nat
    ∧ (∀ i : nat,
         bucket (departuresByMinute g1) i
         = bucket (departuresByMinute g0) i
           ++ filter (λ t, start_minute LocalTZA t = Some (Z.of_nat i)) [trip])
    ∧ (∀ i : nat,
         bucket (arrivalsByMinute g1) i
         = bucket (arrivalsByMinute g0) i
           ++ filter (λ t, end_minute LocalTZA t = Some (Z.of_nat i)) [trip]).
Proof.
  intros Hd Ha [Hs He].
  destruct (push_at_bucket (start_minute LocalTZA) _ trip Hd Hs)
    as (deps' & Hpd & Hld & Hbd).
  destruct (push_at_bucket (end_minute LocalTZA) _ trip Ha He)
    as (arrs' & Hpa & Hla & Hba).
  rewrite bucket_trip_run, Hpd, Hpa. by eexists.
Qed.

Lemma bucket_trip_invalid (trip : Trip) (g0 : Globals) :
  length (departuresByMinute g0) = 1440%nat →
  length (arrivalsByMinute g0) = 1440%nat →
  ¬ valid_timestamps LocalTZA trip →
  ∃ g1,
    bucket_trip LocalTZA trip g0 = (TypeError, g1)
    ∧ stations g1 = stations g0
    ∧ arrivalsByMinute g1 = arrivalsByMinute g0
    ∧ length (departuresByMinute g1) = 1440%nat
    ∧ (∀ i : nat,
         bucket (departuresByMinute g1) i
         = bucket (departuresByMinute g0) i
           ++ filter (λ t, start_minute LocalTZA t = Some (Z.of_nat i)) [trip]).
Proof.
  intros Hd Ha Hbad. rewrite bucket_trip_run.
  destruct (valid_timestamps_cases trip) as [Hv|[Hs|[Hs He]]]; [done| |].
  - rewrite Hs, push_at_NaN. exists g0. split_and!; try done.
    intros i. rewrite filter_cons_False by (by rewrite Hs).
    by rewrite app_nil_r.
  - destruct (push_at_bucket (start_minute LocalTZA) _ trip Hd Hs)
      as (deps' & Hpd & Hld & Hbd).
    rewrite Hpd, He, push_at_NaN. by eexists.
Qed.

Lemma bucket_trips_valid (trips : list Trip) (g0 : Globals) :
  length (departuresByMinute g0) = 1440%nat →
  length (arrivalsByMinute g0) = 1440%nat →
  Forall (valid_timestamps LocalTZA) trips →
  ∃ g,
    bucket_trips LocalTZA trips g0 = (Normal tt, g)
    ∧ stations g = stations g0
    ∧ length (departuresByMinute g) = 1440%nat
    ∧ length (arrivalsByMinute g) = 1440%nat
    ∧ (∀ i : nat,
         bucket (departuresByMinute g) i
         = bucket (departuresByMinute g0) i
           ++ filter (λ t, start_minute LocalTZA t = Some (Z.of_nat i)) trips)
    ∧ (∀ i : nat,
         bucket (arrivalsByMinute g) i
         = bucket (arrivalsByMinute g0) i
           ++ filter (λ t, end_minute LocalTZA t = Some (Z.of_nat i)) trips).
Proof.
  intros Hd Ha Hv. revert g0 Hd Ha.
  induction Hv as [|trip trips Ht _ IH]; intros g0 Hd Ha.
  - exists g0. split_and!; try done; intros i; by rewrite app_nil_r.
  - destruct (bucket_trip_valid trip g0 Hd Ha Ht)
      as (g1 & Hrun1 & Hs1 & Hd1 & Ha1 & Hbd1 & Hba1).
    destruct (IH g1 Hd1 Ha1) as (g & Hrun & Hs & Hd' & Ha' & Hbd & Hba).
    exists g. split_and!; try done.
    + unfold bucket_trips in *. simpl. unfold mbind, Exec_bind.
      by rewrite Hrun1.
    + congruence.
    + intros i. rewrite Hbd, Hbd1, <- app_assoc.
      f_equal. symmetry. apply (filter_app _ [trip]).
    + intros i. rewrite Hba, Hba1, <- app_assoc.
      f_equal. symmetry. apply (filter_app _ [trip]).
Qed.

Lemma bucket_trips_stops (before after : list Trip) (bad : Trip)
    (g0 : Globals) :
  length (departuresByMinute g0) = 1440%nat →
  length (arrivalsByMinute g0) = 1440%nat →
  Forall (valid_timestamps LocalTZA) before →
  ¬ valid_timestamps LocalTZA bad →
  ∃ g,
    bucket_trips LocalTZA (before ++ bad :: after) g0 = (TypeError, g)
    ∧ stations g = stations g0
    ∧ (∀ i : nat,
         bucket (departuresByMinute g) i
         = bucket (departuresByMinute g0) i
           ++ filter (λ t, start_minute LocalTZA t = Some (Z.of_nat i))
                (before ++ [bad]))
    ∧ (∀ i : nat,
         bucket (arrivalsByMinute g) i
         = bucket (arrivalsByMinute g0) i
           ++ filter (λ t, end_minute LocalTZA t = Some (Z.of_nat i)) before).
Proof.
  intros Hd Ha Hv Hbad.
  destruct (bucket_trips_valid before g0 Hd Ha Hv)
    as (g1 & Hrun1 & Hs1 & Hd1 & Ha1 & Hbd1 & Hba1).
  destruct (bucket_trip_invalid bad g1 Hd1 Ha1 Hbad)
    as (g & Hrun & Hs & Harr & _ & Hbd).
  exists g. split_and!.
  - unfold bucket_trips in *. rewrite forEach_app, Hrun1.
    simpl. unfold mbind, Exec_bind. by rewrite Hrun.
  - congruence.
  - intros i. by rewrite Hbd, Hbd1, filter_app, app_assoc.
  - intros i. by rewrite Harr, Hba1.
Qed.

Lemma bucket_trips_success_valid (trips : list Trip) (g0 g : Globals) :
  length (departuresByMinute g0) = 1440%nat →
  length (arrivalsByMinute g0) = 1440%nat →
  bucket_trips LocalTZA trips g0 = (Normal tt, g) →
  Forall (valid_timestamps LocalTZA) trips.
Proof.
  revert g0. induction trips as [|trip trips IH]; intros g0 Hd Ha Hrun;
    [done|].
  unfold bucket_trips in *. simpl in Hrun. unfold mbind, Exec_bind in Hrun.
  destruct (valid_timestamps_cases trip) as [Hv|Hbad].
  - destruct (bucket_trip_valid trip g0 Hd Ha Hv)
      as (g1 & Hrun1 & _ & Hd1 & Ha1 & _).
    rewrite Hrun1 in Hrun. constructor; [done|]. by eapply IH.
  - destruct (bucket_trip_invalid trip g0 Hd Ha) as (g1 & Hrun1 & _).
    + intros [Hs He]. destruct Hbad as [Hn|[_ Hn]].
      * rewrite Hn in Hs. by apply not_valid_minute_None in Hs.
      * rewrite Hn in He. by apply not_valid_minute_None in He.
    + by rewrite Hrun1 in Hrun.
Qed.

Lemma bucket_empty_table (i : nat) : bucket empty_table i = [].
Proof.
  unfold bucket, empty_table.
  destruct (replicate 1440 [] !! i) as [b|] eqn:Hb; [|done].
  by apply lookup_replicate in Hb as [-> _].
Qed.

Lemma length_empty_table : length empty_table = 1440%nat.
Proof. apply length_replicate. Qed.

End BucketerProperties.

(** ** Summing the counts over the stations *)

Lemma sum_fmap_add {A} (f g : A → Z) (l : list A) :
  foldr Z.add 0 ((λ x, f x + g x) <$> l)
  = foldr Z.add 0 (f <$> l) + foldr Z.add 0 (g <$> l).
Proof. induction l as [|x l IH]; csimpl; [done | rewrite IH; lia]. Qed.

Lemma sum_indicator_absent {K} `{EqDecision K} (k : K) (ks : list K) :
  k ∉ ks →
  foldr Z.add 0 ((λ x, if decide (x = k) then 1 else 0) <$> ks) = 0.
Proof.
  induction ks as [|x ks IH]; intros Hk; csimpl; [done|].
  apply not_elem_of_cons in Hk as [Hne Hk].
  rewrite decide_False by done. by rewrite IH.
Qed.

Lemma sum_indicator_present {K} `{EqDecision K} (k : K) (ks : list K) :
  NoDup ks → k ∈ ks →
  foldr Z.add 0 ((λ x, if decide (x = k) then 1 else 0) <$> ks) = 1.
Proof.
  induction 1 as [|x ks Hx _ IH]; intros Hk; csimpl.
  - by apply not_elem_of_nil in Hk.
  - destruct (decide (x = k)) as [->|Hne].
    + by rewrite sum_indicator_absent.
    + apply elem_of_cons in Hk as [->|Hk]; [done|]. by rewrite IH.
Qed.

Lemma count_for_cons {A} (key : A → string) id (v : A) (values : list A) :
  count_for key id (v :: values)
  = (if decide (id = Some (VString (key v))) then 1 else 0)
    + count_for key id values.
Proof.
  unfold count_for. rewrite filter_cons.
  case_decide; simpl length; lia.
Qed.

(** When the identifiers are pairwise distinct and every value's key is
    among them, the per-identifier counts add up to the number of values. *)
Lemma sum_counts {A} (key : A → string) (ids : list (option Value))
    (values : list A) :
  NoDup ids →
  (∀ v, v ∈ values → Some (VString (key v)) ∈ ids) →
  foldr Z.add 0 ((λ id, count_for key id values) <$> ids)
  = Z.of_nat (length values).
Proof.
  intros Hnd. induction values as [|v values IH]; intros Hin.
  - clear Hin. induction ids as [|id ids IH]; csimpl; [done|].
    rewrite IH by (by apply NoDup_cons in Hnd as [_ ?]). done.
  - rewrite (list_fmap_ext _
      (λ id, (if decide (id = Some (VString (key v))) then 1 else 0)
             + count_for key id values) ids)
      by (intros; apply count_for_cons).
    rewrite (sum_fmap_add
      (λ id, if decide (id = Some (VString (key v))) then 1 else 0)).
    rewrite sum_indicator_present by (done || apply Hin; left).
    rewrite IH by (intros w Hw; apply Hin; by right).
    simpl length. lia.
Qed.

Lemma sum_field_with_traffic {A B} (startKey : A → string)
    (endKey : B → string) (deps : list A) (arrs : list B)
    (stations : list Obj) :
  let out :=
    with_traffic (rollup deps (λ v, Z.of_nat (length v)) startKey)
                 (rollup arrs (λ v, Z.of_nat (length v)) endKey)
    <$> stations in
  sum_field "departures" out
  = foldr Z.add 0
      ((λ id, count_for startKey id deps) <$> short_names stations)
  ∧ sum_field "arrivals" out
    = foldr Z.add 0
        ((λ id, count_for endKey id arrs) <$> short_names stations).
Proof.
  intros out. subst out. unfold sum_field, short_names.
  rewrite <- !list_fmap_compose.
  split; f_equal; apply list_fmap_ext; intros i station _; simpl;
    apply (number_field_with_traffic startKey endKey deps arrs station).
Qed.

(** ** What the bucket tables hold after the pass *)

Lemma buckets_partition {A} (h : A → option Z) (table : list (list A))
    (l : list A) :
  length table = 1440%nat →
  (∀ i : nat, bucket table i = filter (λ x, h x = Some (Z.of_nat i)) l) →
  Forall (λ x, valid_minute (h x)) l →
  concat table ≡ₚ l.
Proof.
  intros Hlen Hb Hv. rewrite concat_buckets, Hlen.
  rewrite (flat_map_ext_in _ _ _ Hb).
  rewrite <- (flat_map_fmap (λ i : nat, Some (Z.of_nat i))
                (λ k, filter (λ x, h x = k) l)).
  rewrite filter_partition.
  - rewrite filter_all; [done|].
    eapply Forall_impl; [exact Hv|]. intros x (m & Hm & Hrange).
    apply list_elem_of_fmap. exists (Z.to_nat m). split.
    + rewrite Hm. f_equal. lia.
    + apply elem_of_seq. lia.
  - apply NoDup_fmap_2_strong; [|apply NoDup_seq].
    intros i j _ _ [=]. lia.
Qed.

Section BucketPass.

Variable LocalTZA : Z → Z.

Lemma bucket_trips_fresh (stationData : list Obj) (trips : list Trip) :
  Forall (valid_timestamps LocalTZA) trips →
  ∃ g,
    bucket_trips LocalTZA trips (fresh stationData) = (Normal tt, g)
    ∧ (∀ i : nat,
         bucket (departuresByMinute g) i
         = filter (λ t, start_minute LocalTZA t = Some (Z.of_nat i)) trips)
    ∧ (∀ i : nat,
         bucket (arrivalsByMinute g) i
         = filter (λ t, end_minute LocalTZA t = Some (Z.of_nat i)) trips)
    ∧ concat (departuresByMinute g) ≡ₚ trips
    ∧ concat (arrivalsByMinute g) ≡ₚ trips.
Proof.
  intros Hv.
  destruct (bucket_trips_valid LocalTZA trips (fresh stationData)
              length_empty_table length_empty_table Hv)
    as (g & Hrun & _ & Hld & Hla & Hbd & Hba).
  simpl in Hbd, Hba.
  assert (∀ i : nat, bucket (departuresByMinute g) i
            = filter (λ t, start_minute LocalTZA t = Some (Z.of_nat i)) trips)
    as Hbd' by (intros i; by rewrite Hbd, bucket_empty_table).
  assert (∀ i : nat, bucket (arrivalsByMinute g) i
            = filter (λ t, end_minute LocalTZA t = Some (Z.of_nat i)) trips)
    as Hba' by (intros i; by rewrite Hba, bucket_empty_table).
  exists g. split_and!; try done.
  - apply (buckets_partition (start_minute LocalTZA)); [done | done |].
    eapply Forall_impl; [exact Hv|]. by intros t [? ?].
  - apply (buckets_partition (end_minute LocalTZA)); [done | done |].
    eapply Forall_impl; [exact Hv|]. by intros t [? ?].
Qed.

(** C6. After the bucket-building pass over trips whose timestamps all yield
    a valid minute-of-day, bucket [i] of the departure table holds exactly
    the trips whose start minute is [i] and bucket [i] of the arrival table
    exactly those whose end minute is [i]; each table as a whole is a
    rearrangement of the trip list, so every trip is in it once; and
    whatever distinct buckets an aggregation reads, it sees no trip more
    often than the trip list has it, hence counts none twice for a station
    and direction. *)
Theorem bucket_pass_places_each_trip_once
    (stationData : list Obj) (trips : list Trip) :
  Forall (valid_timestamps LocalTZA) trips →
  ∃ g,
    bucket_trips LocalTZA trips (fresh stationData) = (Normal tt, g)
    ∧ (∀ i : nat,
         bucket (departuresByMinute g) i
         = filter (λ t, start_minute LocalTZA t = Some (Z.of_nat i)) trips)
    ∧ (∀ i : nat,
         bucket (arrivalsByMinute g) i
         = filter (λ t, end_minute LocalTZA t = Some (Z.of_nat i)) trips)
    ∧ concat (departuresByMinute g) ≡ₚ trips
    ∧ concat (arrivalsByMinute g) ≡ₚ trips
    ∧ ∀ idxs : list nat, NoDup idxs →
        flat_map (bucket (departuresByMinute g)) idxs ⊆+ trips
        ∧ flat_map (bucket (arrivalsByMinute g)) idxs ⊆+ trips
        ∧ ∀ id,
            count_for start_station_id id
              (flat_map (bucket (departuresByMinute g)) idxs)
            ≤ count_for start_station_id id trips
            ∧ count_for end_station_id id
                (flat_map (bucket (arrivalsByMinute g)) idxs)
              ≤ count_for end_station_id id trips.
Proof.
  intros Hv.
  destruct (bucket_trips_fresh stationData trips Hv)
    as (g & Hrun & Hbd & Hba & Hpd & Hpa).
  exists g. split_and!; try done.
  intros idxs Hnd.
  assert (flat_map (bucket (departuresByMinute g)) idxs ⊆+ trips) as Hsd
    by (rewrite <- Hpd; by apply flat_map_bucket_submseteq).
  assert (flat_map (bucket (arrivalsByMinute g)) idxs ⊆+ trips) as Hsa
    by (rewrite <- Hpa; by apply flat_map_bucket_submseteq).
  split_and!; try done.
  intros id. split; by apply count_for_submseteq.
Qed.

(** C7 (amended). A timestamp fails to yield a valid minute-of-day only when
    it is an Invalid Date.  At the first trip with such a timestamp the pass
    raises a TypeError ([table[NaN]] is [undefined]) and stops: the trips
    before it stay bucketed, the trips after it are never bucketed, the
    offending trip is in no arrival bucket and is in a departure bucket only
    when its start timestamp is valid; every bucket still holds only trips
    of its own minute. *)
Theorem bucket_pass_stops_at_invalid_timestamp
    (stationData : list Obj) (before after : list Trip) (bad : Trip) :
  Forall (valid_timestamps LocalTZA) before →
  ¬ valid_timestamps LocalTZA bad →
  (started_at bad = InvalidDate ∨ ended_at bad = InvalidDate)
  ∧ ∃ g,
      bucket_trips LocalTZA (before ++ bad :: after) (fresh stationData)
      = (TypeError, g)
      ∧ stations g = stationData
      ∧ (∀ i : nat,
           bucket (departuresByMinute g) i
           = filter (λ t, start_minute LocalTZA t = Some (Z.of_nat i))
               (before ++ [bad]))
      ∧ (∀ i : nat,
           bucket (arrivalsByMinute g) i
           = filter (λ t, end_minute LocalTZA t = Some (Z.of_nat i)) before).
Proof.
  intros Hv Hbad. split.
  - destruct (decide (started_at bad = InvalidDate)) as [|Hs]; [by left|].
    destruct (decide (ended_at bad = InvalidDate)) as [|He]; [by right|].
    destruct Hbad. split; by apply valid_minute_iff.
  - destruct (bucket_trips_stops LocalTZA before after bad (fresh stationData)
                length_empty_table length_empty_table Hv Hbad)
      as (g & Hrun & Hs & Hbd & Hba).
    simpl in Hbd, Hba.
    exists g. split_and!; [done | done | |].
    + intros i. by rewrite Hbd, bucket_empty_table.
    + intros i. by rewrite Hba, bucket_empty_table.
Qed.

(** C2 (amended). When the bucket pass has bucketed all the trips, every
    trip's [start_station_id] and [end_station_id] is the [short_name] of a
    station of the list, and the [short_name]s of the list are pairwise
    distinct, the [departures] of the records of
    [computeStationTraffic(stations, -1)] add up to the number of trips, and
    so do the [arrivals]. *)
Theorem unfiltered_counts_sum_to_trip_count
    (stations : list Obj) (trips : list Trip) (g : Globals) :
  bucket_trips LocalTZA trips (fresh stations) = (Normal tt, g) →
  (∀ t, t ∈ trips →
        Some (VString (start_station_id t)) ∈ short_names stations
        ∧ Some (VString (end_station_id t)) ∈ short_names stations) →
  unique_short_names stations →
  ∃ out,
    (computeStationTraffic stations (-1) g).1 = Normal out
    ∧ sum_field "departures" out = Z.of_nat (length trips)
    ∧ sum_field "arrivals" out = Z.of_nat (length trips).
Proof.
  intros Hrun Hids Huniq.
  pose proof (bucket_trips_success_valid LocalTZA trips (fresh stations) g
                length_empty_table length_empty_table Hrun) as Hv.
  destruct (bucket_trips_fresh stations trips Hv)
    as (g' & Hrun' & _ & _ & Hpd & Hpa).
  rewrite Hrun in Hrun'. injection Hrun' as <-.
  rewrite computeStationTraffic_run. eexists. split; [reflexivity|].
  destruct (sum_field_with_traffic start_station_id end_station_id
              (filterByMinute (departuresByMinute g) (-1))
              (filterByMinute (arrivalsByMinute g) (-1)) stations)
    as [Hd Ha].
  rewrite Hd, Ha. change (filterByMinute ?t (-1)) with (concat t).
  rewrite (list_fmap_ext _ (λ id, count_for start_station_id id trips)
             (short_names stations))
    by (intros; by apply count_for_Permutation).
  rewrite (list_fmap_ext (λ id, count_for end_station_id id _)
             (λ id, count_for end_station_id id trips)
             (short_names stations))
    by (intros; by apply count_for_Permutation).
  split; apply sum_counts; try done; intros t Ht; by apply Hids.
Qed.

End BucketPass.

(** ** The sample data, run through the code *)

Lemma sample_trips_valid : Forall (valid_timestamps utc) sample_trips.
Proof.
  repeat constructor.
  - exists 700. split; [reflexivity | lia].
  - exists 705. split; [reflexivity | lia].
  - exists 10. split; [reflexivity | lia].
  - exists 59. split; [reflexivity | lia].
Defined.

Lemma trip_unparsed_invalid : ¬ valid_timestamps utc trip_unparsed.
Proof. intros [(m & Hm & _) _]. discriminate Hm. Defined.

Lemma sample_bucketed :
  bucket_trips utc sample_trips (fresh sample_stations)
  = (Normal tt, sample_globals).
Proof. vm_compute. reflexivity. Defined.

Lemma sample_ids_known (t : Trip) :
  t ∈ sample_trips →
  Some (VString (start_station_id t)) ∈ short_names sample_stations
  ∧ Some (VString (end_station_id t)) ∈ short_names sample_stations.
Proof.
  intros Ht. apply list_elem_of_In in Ht.
  destruct Ht as [<-|[<-|[]]];
    split; apply (bool_decide_unpack _); vm_compute; exact I.
Defined.

Lemma sample_short_names_unique : unique_short_names sample_stations.
Proof. apply (bool_decide_unpack _). vm_compute. exact I. Defined.

(** The scenario of the specification: around minute 700 station A has one
    departure, station B one arrival, station C nothing; the trip that
    leaves at minute 10 is in the window of 1430 and not in that of 700. *)
Example sample_traffic_at_700 :
  (λ record, (number_field "departures" record,
              number_field "arrivals" record,
              number_field "totalTraffic" record))
  <$> match (computeStationTraffic sample_stations 700 sample_globals).1 with
      | Normal out => out
      | TypeError => []
      end
  = [(1, 0, 1); (0, 1, 1); (0, 0, 0)].
Proof. vm_compute. reflexivity. Qed.

Example sample_window_wraps :
  filterByMinute (departuresByMinute sample_globals) 1430 = [trip_night]
  ∧ filterByMinute (departuresByMinute sample_globals) 700 = [trip_noon].
Proof. split; vm_compute; reflexivity. Qed.

Lemma unfiltered_counts_sum_to_trip_count_witness :
  ∃ out,
    (computeStationTraffic sample_stations (-1) sample_globals).1 = Normal out
    ∧ sum_field "departures" out = Z.of_nat (length sample_trips)
    ∧ sum_field "arrivals" out = Z.of_nat (length sample_trips).
Proof.
  exact (unfiltered_counts_sum_to_trip_count utc sample_stations sample_trips
           sample_globals sample_bucketed sample_ids_known
           sample_short_names_unique).
Defined.

Lemma bucket_pass_places_each_trip_once_witness :
  ∃ g,
    bucket_trips utc sample_trips (fresh sample_stations) = (Normal tt, g)
    ∧ concat (departuresByMinute g) ≡ₚ sample_trips
    ∧ concat (arrivalsByMinute g) ≡ₚ sample_trips.
Proof.
  destruct (bucket_pass_places_each_trip_once utc sample_stations sample_trips
              sample_trips_valid)
    as (g & Hrun & _ & _ & Hpd & Hpa & _).
  exists g. repeat split; assumption.
Defined.

Lemma bucket_pass_stops_at_invalid_timestamp_witness :
  ∃ g,
    bucket_trips utc ([trip_noon] ++ trip_unparsed :: [trip_night])
      (fresh sample_stations)
    = (TypeError, g)
    ∧ (∀ i : nat,
         bucket (arrivalsByMinute g) i
         = filter (λ t, end_minute utc t = Some (Z.of_nat i)) [trip_noon]).
Proof.
  destruct (bucket_pass_stops_at_invalid_timestamp utc sample_stations
              [trip_noon] [trip_night] trip_unparsed)
    as (_ & g & Hrun & _ & _ & Hba).
  - repeat constructor.
    + exists 700. split; [reflexivity | lia].
    + exists 705. split; [reflexivity | lia].
  - exact trip_unparsed_invalid.
  - exists g. split; assumption.
Defined.

(** C7 as stated fails: with an unparsed row first, the pass raises at once,
    the tables stay empty and the valid trip behind it is never bucketed,
    whereas a pass that skipped the row would have bucketed that trip. *)
Lemma bucket_pass_skips_invalid_counterexample :
  ¬ valid_timestamps utc trip_unparsed
  ∧ valid_timestamps utc trip_noon
  ∧ bucket_trips utc [trip_unparsed; trip_noon] (fresh sample_stations)
    = (TypeError, fresh sample_stations)
  ∧ concat (departuresByMinute (fresh sample_stations)) = []
  ∧ concat (arrivalsByMinute (fresh sample_stations)) = []
  ∧ bucket_trips utc [trip_unparsed; trip_noon] (fresh sample_stations)
    ≠ bucket_trips utc [trip_noon] (fresh sample_stations).
Proof.
  assert (bucket_trips utc [trip_unparsed; trip_noon] (fresh sample_stations)
          = (TypeError, fresh sample_stations)) as Hrun
    by (vm_compute; reflexivity).
  split_and!.
  - exact trip_unparsed_invalid.
  - split; [exists 700 | exists 705]; (split; [reflexivity | lia]).
  - exact Hrun.
  - vm_compute. reflexivity.
  - vm_compute. reflexivity.
  - rewrite Hrun. intros Heq.
    apply (f_equal fst) in Heq. vm_compute in Heq. discriminate Heq.
Qed.

Lemma windowed_counts_below_full_day_witness :
  ∃ windowed full,
    (computeStationTraffic sample_stations 700 sample_globals).1
    = Normal windowed
    ∧ (computeStationTraffic sample_stations (-1) sample_globals).1
      = Normal full
    ∧ ∀ (i : nat) (station : Obj), sample_stations !! i = Some station →
      ∃ w f : Obj,
        windowed !! i = Some w ∧ full !! i = Some f
        ∧ number_field "departures" w ≤ number_field "departures" f
        ∧ number_field "arrivals" w ≤ number_field "arrivals" f
        ∧ number_field "totalTraffic" w ≤ number_field "totalTraffic" f.
Proof.
  apply (windowed_counts_below_full_day sample_stations 700 sample_globals).
  lia.
Defined.

(** The loader runs the pass from the fresh globals and, when the pass
    completes, the unfiltered aggregation on the tables it built. *)
Lemma load_run (LocalTZA : Z → Z) (stationData : list Obj)
    (trips : list Trip) :
  load LocalTZA stationData trips initial
  = match bucket_trips LocalTZA trips (fresh stationData) with
    | (Normal _, g) => computeStationTraffic (stations g) (-1) g
    | (TypeError, g) => (TypeError, g)
    end.
Proof.
  unfold load, mbind, Exec_bind.
  change (write_stations stationData initial)
    with (Normal tt, fresh stationData).
  cbv beta iota.
  destruct (bucket_trips LocalTZA trips (fresh stationData)) as [[[]|] g];
    reflexivity.
Qed.

(** The distinctness of the [short_name]s is needed for the counts to add
    up to the number of trips: a station listed twice gets its trips in both
    of its records. *)
Remark station_listed_twice_counts_twice :
  sum_field "departures"
    match (computeStationTraffic
             [station_named "A"; station_named "B"; station_named "A"] (-1)
             (bucket_trips utc [trip_noon]
                (fresh [station_named "A"; station_named "B";
                        station_named "A"])).2).1
    with
    | Normal out => out
    | TypeError => []
    end
  = 2.
Proof. vm_compute. reflexivity. Qed.

(** By contrast the bucket pass does write: the same state model tells its
    [push] calls from the read-only queries. *)
Example bucket_pass_writes_tables :
  (bucket_trips utc sample_trips (fresh sample_stations)).2
  ≠ fresh sample_stations
  ∧ (slider_session [-1; 700; 1430] sample_globals).2 = sample_globals.
Proof.
  split.
  - intros Heq.
    apply (f_equal (λ g, bucket (departuresByMinute g) 700)) in Heq.
    vm_compute in Heq. discriminate Heq.
  - vm_compute. reflexivity.
Qed.

(** * Further properties of the code *)

(** ** Minutes since midnight *)

Lemma hours_minutes_of_day (q : Z) :
  (q `div` 60) `mod` 24 * 60 + q `mod` 60 = q `mod` 1440.
Proof.
  change 1440 with (60 * 24). rewrite Z.rem_mul_r by lia. lia.
Qed.

(** X1. [minutesSinceMidnight] of a parsed date is the local time in whole
    minutes taken modulo 1440, hence a minute in [0, 1439]; it is NaN
    exactly on an Invalid Date. *)
Theorem minutesSinceMidnight_time_of_day (LocalTZA : Z → Z) (date : Date) :
  minutesSinceMidnight LocalTZA date
  = match date with
    | InvalidDate => None
    | DateOf tv => Some (((tv + LocalTZA tv) `div` 60000) `mod` 1440)
    end
  ∧ (∀ m, minutesSinceMidnight LocalTZA date = Some m → 0 ≤ m ≤ 1439)
  ∧ (minutesSinceMidnight LocalTZA date = None ↔ date = InvalidDate).
Proof.
  destruct date as [|tv]; simpl.
  - split_and!; [done | by intros m [=] | done].
  - assert (minutesSinceMidnight LocalTZA (DateOf tv)
            = Some (((tv + LocalTZA tv) `div` 60000) `mod` 1440)) as ->.
    { unfold minutesSinceMidnight, getHours, getMinutes. simpl. f_equal.
      unfold msPerHour, msPerMinute. change 3600000 with (60000 * 60).
      rewrite <- Z.div_div by lia. apply hours_minutes_of_day. }
    split_and!; [done | | done].
    intros m [= <-].
    pose proof (Z.mod_pos_bound ((tv + LocalTZA tv) `div` 60000) 1440). lia.
Qed.

(** ** Which buckets a window holds *)

Lemma window_bounds_explicit (centerMinute : Z) :
  0 ≤ centerMinute ≤ 1439 →
  let minMinute := (centerMinute - 60 + 1440) `mod` 1440 in
  let maxMinute := (centerMinute + 60) `mod` 1440 in
  (centerMinute < 60
   ∧ minMinute = centerMinute + 1380 ∧ maxMinute = centerMinute + 60)
  ∨ (60 ≤ centerMinute < 1380
     ∧ minMinute = centerMinute - 60 ∧ maxMinute = centerMinute + 60)
  ∨ (1380 ≤ centerMinute
     ∧ minMinute = centerMinute - 60 ∧ maxMinute = centerMinute - 1380).
Proof.
  intros Hc minMinute maxMinute. subst minMinute maxMinute.
  destruct (decide (centerMinute < 60)) as [Hlo|Hlo].
  - left.
    replace (centerMinute - 60 + 1440) with (centerMinute + 1380) by lia.
    rewrite !Z.mod_small by lia. lia.
  - replace (centerMinute - 60 + 1440) with (centerMinute - 60 + 1 * 1440)
      by lia.
    rewrite Z_mod_plus_full.
    destruct (decide (centerMinute < 1380)) as [Hmid|Hhi].
    + right; left. rewrite !Z.mod_small by lia. lia.
    + right; right.
      replace (centerMinute + 60) with (centerMinute - 1380 + 1 * 1440)
        by lia.
      rewrite Z_mod_plus_full, !Z.mod_small by lia. lia.
Qed.

Lemma in_window_cases (centerMinute m : Z) :
  0 ≤ centerMinute ≤ 1439 → 0 ≤ m < 1440 →
  in_window centerMinute m
  ↔ centerMinute - 60 ≤ m < centerMinute + 60
    ∨ centerMinute - 60 ≤ m - 1440 < centerMinute + 60
    ∨ centerMinute - 60 ≤ m + 1440 < centerMinute + 60.
Proof.
  intros Hc Hm. unfold in_window.
  destruct (decide (m - centerMinute + 60 < 0)).
  - replace (m - centerMinute + 60)
      with (m - centerMinute + 60 + 1440 + (-1) * 1440) by lia.
    rewrite Z_mod_plus_full, Z.mod_small by lia. lia.
  - destruct (decide (m - centerMinute + 60 < 1440)).
    + rewrite Z.mod_small by lia. lia.
    + replace (m - centerMinute + 60)
        with (m - centerMinute + 60 - 1440 + 1 * 1440) by lia.
      rewrite Z_mod_plus_full, Z.mod_small by lia. lia.
Qed.

Lemma elem_of_window_indices (centerMinute : Z) (i : nat) :
  0 ≤ centerMinute ≤ 1439 →
  i ∈ window_indices centerMinute
  ↔ (i < 1440)%nat ∧ in_window centerMinute (Z.of_nat i).
Proof.
  intros Hc. rewrite window_indices_range by done. cbv zeta.
  destruct (window_bounds_explicit centerMinute Hc)
    as [(H1&->&->)|[(H1&->&->)|(H1&->&->)]];
    case_decide; try lia;
    rewrite ?elem_of_app, !elem_of_seq;
    (split;
     [intros Hi; assert (i < 1440)%nat as Hlt by lia; split; [done|];
      apply in_window_cases; lia
     |intros [Hlt Hw]; apply in_window_cases in Hw; lia]).
Qed.

Lemma window_indices_NoDup (centerMinute : Z) :
  0 ≤ centerMinute ≤ 1439 → NoDup (window_indices centerMinute).
Proof.
  intros Hc. rewrite window_indices_range by done. cbv zeta.
  destruct (window_bounds_explicit centerMinute Hc)
    as [(H1&->&->)|[(H1&->&->)|(H1&->&->)]];
    case_decide; try lia; try apply NoDup_seq.
  all: apply NoDup_app; split_and!; try apply NoDup_seq.
  all: intros i [Hi _]%elem_of_seq [_ Hj]%elem_of_seq; lia.
Qed.

(** X2. For a center minute in [0, 1439] the window query reads bucket [i]
    exactly when [i] is one of the 1440 buckets and
    [(i - centerMinute + 60) mod 1440 < 120]: minute [i] is at most 60
    minutes before the center or less than 60 minutes after it, around the
    clock. *)
Theorem window_reads_circular_range (centerMinute : Z) (i : nat) :
  0 ≤ centerMinute ≤ 1439 →
  i ∈ window_indices centerMinute
  ↔ (i < 1440)%nat ∧ (Z.of_nat i - centerMinute + 60) `mod` 1440 < 120.
Proof. apply elem_of_window_indices. Qed.

Lemma window_reads_circular_range_witness :
  10%nat ∈ window_indices 1430
  ↔ (10 < 1440)%nat ∧ (Z.of_nat 10 - 1430 + 60) `mod` 1440 < 120.
Proof. apply (window_reads_circular_range 1430 10). lia. Defined.

(** X3. A center minute that is 1440 too large selects the same trips: for
    every table and every integer [minute] with
    [0 <= minute <= 2^53 - 2820] (so that [minute + 1440 - 60 + 1440], the
    largest number the two calls compute, is still an integer a JavaScript
    number holds exactly), [filterByMinute(table, minute + 1440)] is
    [filterByMinute(table, minute)]; in particular 1440 acts as 0. *)
Theorem filterByMinute_period {A} (table : list (list A)) (minute : Z) :
  0 ≤ minute ≤ 9007199254740992 - 2820 →
  filterByMinute table (minute + 1440) = filterByMinute table minute.
Proof.
  intros [Hm _]. unfold filterByMinute.
  destruct (Z.eqb_spec (minute + 1440) (-1)); [lia|].
  destruct (Z.eqb_spec minute (-1)); [lia|].
  rewrite !Z.rem_mod_nonneg by lia.
  replace (minute + 1440 - 60 + 1440) with (minute - 60 + 1440 + 1 * 1440)
    by lia.
  replace (minute + 1440 + 60) with (minute + 60 + 1 * 1440) by lia.
  by rewrite !Z_mod_plus_full.
Qed.

Lemma filterByMinute_period_witness :
  filterByMinute (departuresByMinute sample_globals) (0 + 1440)
  = filterByMinute (departuresByMinute sample_globals) 0.
Proof.
  apply (filterByMinute_period (departuresByMinute sample_globals) 0). lia.
Defined.

Lemma selected_subseteq {A} (arr : list A) (minute : Z) (x : A) :
  x ∈ selected arr minute → x ∈ arr.
Proof.
  unfold selected. destruct (minute =? -1); [done|]. cbv zeta.
  destruct (_ >? _); rewrite ?elem_of_app;
    intros; destruct_or?; by eapply sublist_subseteq; [apply slice_sublist|].
Qed.

Lemma filterByMinute_from_table {A} (table : list (list A)) (minute : Z)
    (x : A) :
  x ∈ filterByMinute table minute →
  ∃ (i : nat) (b : list A), table !! i = Some b ∧ x ∈ b.
Proof.
  rewrite filterByMinute_selected. unfold flat.
  rewrite list_elem_of_In, in_concat.
  intros (b & Hb%list_elem_of_In%selected_subseteq & Hx%list_elem_of_In).
  apply list_elem_of_lookup in Hb as [i Hi]. by exists i, b.
Qed.

(** X4. Whatever number is passed as the minute, in the slider's range or
    not, [filterByMinute] returns only elements of the table's buckets. *)
Theorem filterByMinute_returns_table_content {A} (table : list (list A))
    (minute : Z) (x : A) :
  x ∈ filterByMinute table minute →
  ∃ (i : nat) (b : list A), table !! i = Some b ∧ x ∈ b.
Proof. apply filterByMinute_from_table. Qed.

Lemma filterByMinute_returns_table_content_witness :
  ∃ (i : nat) (b : list Trip),
    departuresByMinute sample_globals !! i = Some b ∧ trip_night ∈ b.
Proof.
  apply (filterByMinute_returns_table_content
           (departuresByMinute sample_globals) 1430 trip_night).
  apply (bool_decide_unpack _). vm_compute. exact I.
Defined.

Lemma filterByMinute_empty_table (minute : Z) :
  filterByMinute empty_table minute = [].
Proof.
  destruct (filterByMinute empty_table minute) as [|x l] eqn:Hf; [done|].
  destruct (filterByMinute_from_table empty_table minute x) as (i & b & Hi & Hx).
  - rewrite Hf. left.
  - apply lookup_replicate in Hi as [-> _]. by apply not_elem_of_nil in Hx.
Qed.

(** X5. Before any trip is bucketed (the tables as the script declares
    them), every station gets [departures], [arrivals] and [totalTraffic]
    0, whatever the time filter. *)
Theorem no_trips_no_traffic
    (stations stationData : list Obj) (timeFilter : Z) :
  ∃ out,
    (computeStationTraffic stations timeFilter (fresh stationData)).1
    = Normal out
    ∧ length out = length stations
    ∧ Forall (λ record : Obj,
                record !! "departures"%string = Some (VNumber 0)
                ∧ record !! "arrivals"%string = Some (VNumber 0)
                ∧ record !! "totalTraffic"%string = Some (VNumber 0)) out.
Proof.
  rewrite computeStationTraffic_run. eexists. split; [reflexivity|].
  split; [by rewrite length_fmap|].
  apply Forall_fmap, Forall_forall. intros station _.
  change (departuresByMinute (fresh stationData)) with empty_table.
  change (arrivalsByMinute (fresh stationData)) with empty_table.
  rewrite !filterByMinute_empty_table.
  destruct (with_traffic_fields start_station_id end_station_id [] []
              station) as (Hd & Ha & Ht & _).
  simpl. by rewrite Hd, Ha, Ht.
Qed.

(** ** Records without an identifier, records aggregated again *)



Lemma with_traffic_overwrites (departures arrivals departures' arrivals'
    : gmap string Z) (station : Obj) :
  with_traffic departures' arrivals' (with_traffic departures arrivals station)
  = with_traffic departures' arrivals' station.
Proof.
  assert (with_traffic departures arrivals station !! "short_name"%string
          = station !! "short_name"%string) as Hid.
  { unfold with_traffic. by do 3 rewrite lookup_insert_ne by done. }
  unfold with_traffic at 1 3. rewrite Hid.
  apply map_eq. intros k. rewrite !lookup_insert.
  repeat case_decide; try done.
  unfold with_traffic. by do 3 rewrite lookup_insert_ne by done.
Qed.

(** X7. The three traffic properties are overwritten, not accumulated:
    aggregating the records that an earlier aggregation returned, under any
    time filter, gives the same output as aggregating the original
    stations under that filter. *)
Theorem computeStationTraffic_overwrites_traffic
    (stations : list Obj) (earlier timeFilter : Z) (g : Globals) :
  ∃ out,
    (computeStationTraffic stations earlier g).1 = Normal out
    ∧ (computeStationTraffic out timeFilter g).1
      = (computeStationTraffic stations timeFilter g).1.
Proof.
  rewrite !computeStationTraffic_run. eexists. split; [reflexivity|].
  rewrite computeStationTraffic_run. simpl. f_equal.
  rewrite <- list_fmap_compose. apply list_fmap_ext.
  intros i station _. apply with_traffic_overwrites.
Qed.

(** ** The domain of the radius scale *)

Lemma d3_max_acc_bounds {A} (valueof : A → option Z) (values : list A)
    (acc : option Z) :
  let step := λ (max : option Z) (value : A),
    match valueof value with
    | None => max
    | Some v =>
        match max with
        | None => Some v
        | Some m => if m <? v then Some v else Some m
        end
    end in
  (∀ a, acc = Some a → ∃ M, foldl step acc values = Some M ∧ a ≤ M)
  ∧ (∀ x v, x ∈ values → valueof x = Some v →
            ∃ M, foldl step acc values = Some M ∧ v ≤ M)
  ∧ (∀ M, foldl step acc values = Some M →
          acc = Some M ∨ ∃ x, x ∈ values ∧ valueof x = Some M)
  ∧ (foldl step acc values = None →
     acc = None ∧ ∀ x, x ∈ values → valueof x = None).
Proof.
  intros step. revert acc.
  induction values as [|y values IH]; intros acc.
  - simpl. split_and!.
    + intros a ->. exists a. split; [done | lia].
    + intros x v Hx. by apply not_elem_of_nil in Hx.
    + intros M ->. by left.
    + intros ->. split; [done|]. intros x Hx. by apply not_elem_of_nil in Hx.
  - simpl. destruct (IH (step acc y)) as (IHa & IHx & IHm & IHn).
    assert (∀ a, acc = Some a → ∃ a', step acc y = Some a' ∧ a ≤ a') as Hacc.
    { intros a ->. unfold step. destruct (valueof y) as [v|].
      - destruct (Z.ltb_spec a v); eexists; (split; [done | lia]).
      - exists a. split; [done | lia]. }
    assert (∀ v, valueof y = Some v → ∃ a', step acc y = Some a' ∧ v ≤ a')
      as Hy.
    { intros v Hv. unfold step. rewrite Hv. destruct acc as [a|].
      - destruct (Z.ltb_spec a v); eexists; (split; [done | lia]).
      - exists v. split; [done | lia]. }
    split_and!.
    + intros a Ha. destruct (Hacc a Ha) as (a' & Ha' & Hle).
      destruct (IHa a' Ha') as (M & HM & Hle'). exists M. split; [done | lia].
    + intros x v [->|Hx]%elem_of_cons Hv.
      * destruct (Hy v Hv) as (a' & Ha' & Hle).
        destruct (IHa a' Ha') as (M & HM & Hle'). exists M. split; [done|lia].
      * by apply IHx with x.
    + intros M HM. destruct (IHm M HM) as [Hs|(x & Hx & Hv)].
      * unfold step in Hs. destruct (valueof y) as [v|] eqn:Hv.
        -- destruct acc as [a|].
           ++ destruct (Z.ltb_spec a v); injection Hs as <-.
              ** right. exists y. split; [left | done].
              ** by left.
           ++ injection Hs as <-. right. exists y. split; [left | done].
        -- by left.
      * right. exists x. split; [by right | done].
    + intros Hn. destruct (IHn Hn) as [Hs Hall].
      unfold step in Hs. destruct (valueof y) as [v|] eqn:Hv.
      * destruct acc as [a|]; [destruct (a <? v)|]; discriminate Hs.
      * split; [done|]. intros x [->|Hx]%elem_of_cons; [done | by apply Hall].
Qed.

Lemma totalTraffic_of_with_traffic {A B} (startKey : A → string)
    (endKey : B → string) (deps : list A) (arrs : list B) (station : Obj) :
  totalTraffic_of
    (with_traffic (rollup deps (λ v, Z.of_nat (length v)) startKey)
                  (rollup arrs (λ v, Z.of_nat (length v)) endKey) station)
  = Some (count_for startKey (station !! "short_name"%string) deps
          + count_for endKey (station !! "short_name"%string) arrs).
Proof.
  destruct (with_traffic_fields startKey endKey deps arrs station)
    as (_ & _ & Ht & _).
  unfold totalTraffic_of. by rewrite Ht.
Qed.

(** X8. The domain the loader gives the radius scale covers every later
    query: its upper end, [d3.max] of the unfiltered [totalTraffic], is
    undefined exactly when there is no station, is the [totalTraffic] of
    some unfiltered record, and for every time filter in [-1, 1439] each
    record's [totalTraffic] lies between 0 and it. *)
Theorem radius_domain_covers_every_filter
    (stations : list Obj) (timeFilter : Z) (g : Globals) :
  -1 ≤ timeFilter ≤ 1439 →
  ∃ full filtered,
    (computeStationTraffic stations (-1) g).1 = Normal full
    ∧ (computeStationTraffic stations timeFilter g).1 = Normal filtered
    ∧ (radius_domain_max full = None ↔ stations = [])
    ∧ (∀ M, radius_domain_max full = Some M →
            ∃ record, record ∈ full
                      ∧ record !! "totalTraffic"%string = Some (VNumber M))
    ∧ ∀ record, record ∈ filtered →
        ∃ M, radius_domain_max full = Some M
             ∧ 0 ≤ number_field "totalTraffic" record ≤ M.
Proof.
  intros Hf. rewrite !computeStationTraffic_run. eexists _, _.
  split; [reflexivity|]. split; [reflexivity|]. simpl.
  set (full := with_traffic _ _ <$> stations).
  destruct (d3_max_acc_bounds totalTraffic_of full None)
    as (_ & Hupper & Hattained & Hnone).
  fold (d3_max full totalTraffic_of) in Hupper, Hattained, Hnone.
  fold (radius_domain_max full) in Hupper, Hattained, Hnone.
  split_and!.
  - split.
    + intros Hn. destruct (Hnone Hn) as [_ Hall].
      destruct stations as [|station stations']; [done|].
      specialize (Hall _ (list_elem_of_here _ _)).
      by rewrite totalTraffic_of_with_traffic in Hall.
    + by intros ->.
  - intros M HM. destruct (Hattained M HM) as [[=]|(record & Hr & Hv)].
    exists record. split; [done|].
    unfold totalTraffic_of in Hv.
    destruct (record !! "totalTraffic"%string) as [[]|]; by simplify_eq.
  - intros record (station & -> & Hs)%list_elem_of_fmap.
    destruct (Hupper (with_traffic
                (rollup (filterByMinute (departuresByMinute g) (-1))
                        (λ v, Z.of_nat (length v)) start_station_id)
                (rollup (filterByMinute (arrivalsByMinute g) (-1))
                        (λ v, Z.of_nat (length v)) end_station_id) station)
              _ ltac:(by apply list_elem_of_fmap_2)
              (totalTraffic_of_with_traffic _ _ _ _ _))
      as (M & HM & Hle).
    exists M. split; [done|].
    destruct (number_field_with_traffic start_station_id end_station_id
                (filterByMinute (departuresByMinute g) timeFilter)
                (filterByMinute (arrivalsByMinute g) timeFilter) station)
      as (_ & _ & ->).
    pose proof (count_for_submseteq start_station_id
                  (station !! "short_name"%string) _ _
                  (filterByMinute_submseteq (departuresByMinute g) timeFilter
                     Hf)).
    pose proof (count_for_submseteq end_station_id
                  (station !! "short_name"%string) _ _
                  (filterByMinute_submseteq (arrivalsByMinute g) timeFilter
                     Hf)).
    pose proof (count_for_nonneg start_station_id
                  (station !! "short_name"%string)
                  (filterByMinute (departuresByMinute g) timeFilter)).
    pose proof (count_for_nonneg end_station_id
                  (station !! "short_name"%string)
                  (filterByMinute (arrivalsByMinute g) timeFilter)).
    lia.
Qed.

Lemma radius_domain_covers_every_filter_witness :
  ∃ full filtered,
    (computeStationTraffic sample_stations (-1) sample_globals).1
    = Normal full
    ∧ (computeStationTraffic sample_stations 700 sample_globals).1
      = Normal filtered
    ∧ ∀ record, record ∈ filtered →
        ∃ M, radius_domain_max full = Some M
             ∧ 0 ≤ number_field "totalTraffic" record ≤ M.
Proof.
  destruct (radius_domain_covers_every_filter sample_stations 700
              sample_globals)
    as (full & filtered & Hfull & Hfiltered & _ & _ & Hcover).
  - lia.
  - exists full, filtered. repeat split; assumption.
Defined.

(** ** The bucket pass and the queries together *)

Lemma sum_counts_known {A} (key : A → string) (ids : list (option Value))
    (values : list A) :
  NoDup ids →
  foldr Z.add 0 ((λ id, count_for key id values) <$> ids)
  = Z.of_nat (length (filter (λ v, Some (VString (key v)) ∈ ids) values)).
Proof.
  intros Hnd. induction values as [|v values IH].
  - induction ids as [|id ids IH]; csimpl; [done|].
    rewrite IH by (by apply NoDup_cons in Hnd as [_ ?]). done.
  - rewrite (list_fmap_ext _
      (λ id, (if decide (id = Some (VString (key v))) then 1 else 0)
             + count_for key id values) ids)
      by (intros; apply count_for_cons).
    rewrite (sum_fmap_add
      (λ id, if decide (id = Some (VString (key v))) then 1 else 0)).
    rewrite IH, filter_cons.
    destruct (decide (Some (VString (key v)) ∈ ids)) as [Hin|Hout].
    + rewrite sum_indicator_present by done. simpl length. lia.
    + rewrite sum_indicator_absent by done. lia.
Qed.

Lemma window_select_perm {A} (h : A → option Z) (table : list (list A))
    (l : list A) (centerMinute : Z) :
  length table = 1440%nat →
  (∀ i : nat, bucket table i = filter (λ x, h x = Some (Z.of_nat i)) l) →
  (∀ x m, h x = Some m → 0 ≤ m ≤ 1439) →
  0 ≤ centerMinute ≤ 1439 →
  filterByMinute table centerMinute
  ≡ₚ filter (λ x, minute_in_window centerMinute (h x)) l.
Proof.
  intros Hlen Hb Hrange Hc.
  rewrite filterByMinute_indices by done.
  rewrite (flat_map_ext_in _ _ _ Hb).
  rewrite <- (flat_map_fmap (λ i : nat, Some (Z.of_nat i))
                (λ k, filter (λ x, h x = k) l)).
  rewrite filter_partition.
  - erewrite list_filter_iff; [done|]. intros x. simpl.
    rewrite list_elem_of_fmap. split.
    + intros (i & -> & Hi). by apply elem_of_window_indices in Hi as [_ ?].
    + destruct (h x) as [m|] eqn:Hm; [|done]. simpl. intros Hw.
      pose proof (Hrange x m Hm).
      exists (Z.to_nat m). split; [f_equal; lia|].
      apply elem_of_window_indices; [done|].
      rewrite Z2Nat.id by lia. split; [lia | done].
  - apply NoDup_fmap_2_strong; [|by apply window_indices_NoDup].
    intros i j _ _ [=]. lia.
Qed.

Section PassAndQueries.

Variable LocalTZA : Z → Z.

Lemma minute_range (date : Date) (m : Z) :
  minutesSinceMidnight LocalTZA date = Some m → 0 ≤ m ≤ 1439.
Proof.
  intros Hm.
  destruct (minutesSinceMidnight_cases LocalTZA date)
    as [[(m' & Hm' & Hr) _]|[Hn _]]; congruence.
Qed.

Lemma dates_parse_valid (trip : Trip) :
  dates_parse trip ↔ valid_timestamps LocalTZA trip.
Proof.
  unfold dates_parse, valid_timestamps, start_minute, end_minute.
  by rewrite !valid_minute_iff.
Qed.

Lemma valid_timestamps_or_not (trip : Trip) :
  valid_timestamps LocalTZA trip ∨ ¬ valid_timestamps LocalTZA trip.
Proof.
  destruct (valid_timestamps_cases LocalTZA trip) as [Hv|[Hn|[_ Hn]]];
    [by left | right | right]; intros [Hs He].
  - rewrite Hn in Hs. by apply not_valid_minute_None in Hs.
  - rewrite Hn in He. by apply not_valid_minute_None in He.
Qed.

Lemma bucket_trips_fresh_tables (stationData : list Obj)
    (trips : list Trip) :
  Forall (valid_timestamps LocalTZA) trips →
  ∃ g,
    bucket_trips LocalTZA trips (fresh stationData) = (Normal tt, g)
    ∧ stations g = stationData
    ∧ length (departuresByMinute g) = 1440%nat
    ∧ length (arrivalsByMinute g) = 1440%nat
    ∧ (∀ i : nat,
         bucket (departuresByMinute g) i
         = filter (λ t, start_minute LocalTZA t = Some (Z.of_nat i)) trips)
    ∧ (∀ i : nat,
         bucket (arrivalsByMinute g) i
         = filter (λ t, end_minute LocalTZA t = Some (Z.of_nat i)) trips).
Proof.
  intros Hv.
  destruct (bucket_trips_valid LocalTZA trips (fresh stationData)
              length_empty_table length_empty_table Hv)
    as (g & Hrun & Hs & Hld & Hla & Hbd & Hba).
  simpl in Hbd, Hba.
  exists g. split_and!; try done.
  - intros i. by rewrite Hbd, bucket_empty_table.
  - intros i. by rewrite Hba, bucket_empty_table.
Qed.

Lemma window_of_fresh_pass (stationData : list Obj) (trips : list Trip)
    (centerMinute : Z) :
  Forall (valid_timestamps LocalTZA) trips →
  0 ≤ centerMinute ≤ 1439 →
  ∃ g,
    bucket_trips LocalTZA trips (fresh stationData) = (Normal tt, g)
    ∧ filterByMinute (departuresByMinute g) centerMinute
      ≡ₚ filter (λ t, minute_in_window centerMinute
                        (start_minute LocalTZA t)) trips
    ∧ filterByMinute (arrivalsByMinute g) centerMinute
      ≡ₚ filter (λ t, minute_in_window centerMinute
                        (end_minute LocalTZA t)) trips.
Proof.
  intros Hv Hc.
  destruct (bucket_trips_fresh_tables stationData trips Hv)
    as (g & Hrun & _ & Hld & Hla & Hbd & Hba).
  exists g. split_and!; [done | |].
  - apply (window_select_perm (start_minute LocalTZA)); try done.
    intros t m. apply minute_range.
  - apply (window_select_perm (end_minute LocalTZA)); try done.
    intros t m. apply minute_range.
Qed.

(** X9. After the bucket pass over trips whose dates all parsed, a query at
    a center minute in [0, 1439] returns exactly the trips of the window:
    a trip is among the departures returned when, and only when, it is in
    the trip list and its start minute [m] satisfies
    [(m - centerMinute + 60) mod 1440 < 120]; likewise for arrivals and the
    end minute. *)
Theorem window_returns_the_trips_of_the_window
    (stationData : list Obj) (trips : list Trip) (centerMinute : Z) :
  Forall dates_parse trips →
  0 ≤ centerMinute ≤ 1439 →
  ∃ g,
    bucket_trips LocalTZA trips (fresh stationData) = (Normal tt, g)
    ∧ ∀ t,
        (t ∈ filterByMinute (departuresByMinute g) centerMinute
         ↔ t ∈ trips
           ∧ minute_in_window centerMinute (start_minute LocalTZA t))
        ∧ (t ∈ filterByMinute (arrivalsByMinute g) centerMinute
           ↔ t ∈ trips
             ∧ minute_in_window centerMinute (end_minute LocalTZA t)).
Proof.
  intros Hv Hc.
  destruct (window_of_fresh_pass stationData trips centerMinute) as
    (g & Hrun & Hpd & Hpa); [|done|].
  { eapply Forall_impl; [exact Hv|]. intros t. apply dates_parse_valid. }
  exists g. split; [done|]. intros t.
  rewrite Hpd, Hpa, !list_elem_of_filter. tauto.
Qed.

(** X10. End to end: after the bucket pass over trips whose dates all
    parsed, [computeStationTraffic(stations, centerMinute)] for a center
    minute in [0, 1439] gives each station as [departures] the number of
    trips of the list that start at that station with a start minute in the
    window, as [arrivals] the number that end there with an end minute in
    the window, and as [totalTraffic] their sum. *)
Theorem computeStationTraffic_counts_the_window
    (stations : list Obj) (trips : list Trip) (centerMinute : Z) :
  Forall dates_parse trips →
  0 ≤ centerMinute ≤ 1439 →
  ∃ g out,
    bucket_trips LocalTZA trips (fresh stations) = (Normal tt, g)
    ∧ (computeStationTraffic stations centerMinute g).1 = Normal out
    ∧ ∀ (i : nat) (station : Obj), stations !! i = Some station →
      ∃ record : Obj,
        out !! i = Some record
        ∧ record !! "departures"%string
          = Some (VNumber
              (count_for start_station_id (station !! "short_name"%string)
                 (filter (λ t, minute_in_window centerMinute
                                 (start_minute LocalTZA t)) trips)))
        ∧ record !! "arrivals"%string
          = Some (VNumber
              (count_for end_station_id (station !! "short_name"%string)
                 (filter (λ t, minute_in_window centerMinute
                                 (end_minute LocalTZA t)) trips)))
        ∧ record !! "totalTraffic"%string
          = Some (VNumber
              (count_for start_station_id (station !! "short_name"%string)
                 (filter (λ t, minute_in_window centerMinute
                                 (start_minute LocalTZA t)) trips)
               + count_for end_station_id (station !! "short_name"%string)
                   (filter (λ t, minute_in_window centerMinute
                                   (end_minute LocalTZA t)) trips))).
Proof.
  intros Hv Hc.
  destruct (window_of_fresh_pass stations trips centerMinute) as
    (g & Hrun & Hpd & Hpa); [|done|].
  { eapply Forall_impl; [exact Hv|]. intros t. apply dates_parse_valid. }
  exists g. eexists. split; [done|].
  rewrite computeStationTraffic_run. split; [reflexivity|].
  intros i station Hi. eexists.
  rewrite list_lookup_fmap, Hi. simpl. split; [reflexivity|].
  destruct (with_traffic_fields start_station_id end_station_id
              (filterByMinute (departuresByMinute g) centerMinute)
              (filterByMinute (arrivalsByMinute g) centerMinute) station)
    as (Hd & Ha & Ht & _).
  rewrite (count_for_Permutation start_station_id _ _ _ Hpd) in Hd, Ht.
  rewrite (count_for_Permutation end_station_id _ _ _ Hpa) in Ha, Ht.
  done.
Qed.

(** X11. A trip whose station id is the [short_name] of no station is left
    out of the totals, and only such a trip is: when the pass has bucketed
    the trips and the [short_name]s of the list are pairwise distinct, the
    unfiltered [departures] add up to the number of trips whose
    [start_station_id] is a [short_name] of the list, and the [arrivals] to
    the number whose [end_station_id] is one. *)
Theorem unknown_stations_are_left_out
    (stations : list Obj) (trips : list Trip) (g : Globals) :
  bucket_trips LocalTZA trips (fresh stations) = (Normal tt, g) →
  unique_short_names stations →
  ∃ out,
    (computeStationTraffic stations (-1) g).1 = Normal out
    ∧ sum_field "departures" out
      = Z.of_nat (length (filter
          (λ t, Some (VString (start_station_id t)) ∈ short_names stations)
          trips))
    ∧ sum_field "arrivals" out
      = Z.of_nat (length (filter
          (λ t, Some (VString (end_station_id t)) ∈ short_names stations)
          trips)).
Proof.
  intros Hrun Huniq.
  pose proof (bucket_trips_success_valid LocalTZA trips (fresh stations) g
                length_empty_table length_empty_table Hrun) as Hv.
  destruct (bucket_trips_fresh LocalTZA stations trips Hv)
    as (g' & Hrun' & _ & _ & Hpd & Hpa).
  rewrite Hrun in Hrun'. injection Hrun' as <-.
  rewrite computeStationTraffic_run. eexists. split; [reflexivity|].
  destruct (sum_field_with_traffic start_station_id end_station_id
              (filterByMinute (departuresByMinute g) (-1))
              (filterByMinute (arrivalsByMinute g) (-1)) stations)
    as [Hd Ha].
  rewrite Hd, Ha. change (filterByMinute ?t (-1)) with (concat t).
  rewrite (list_fmap_ext _ (λ id, count_for start_station_id id trips)
             (short_names stations))
    by (intros; by apply count_for_Permutation).
  rewrite (list_fmap_ext (λ id, count_for end_station_id id _)
             (λ id, count_for end_station_id id trips)
             (short_names stations))
    by (intros; by apply count_for_Permutation).
  split; by apply sum_counts_known.
Qed.

(** X12. The loader completes normally exactly when the dates of every trip
    parsed (otherwise it raises a TypeError); when it completes it has
    stored the station data and returns one record per station. *)
Theorem load_completes_iff_dates_parse
    (stationData : list Obj) (trips : list Trip) :
  ((∃ out g, load LocalTZA stationData trips initial = (Normal out, g))
   ↔ Forall dates_parse trips)
  ∧ ∀ out g, load LocalTZA stationData trips initial = (Normal out, g) →
             stations g = stationData ∧ length out = length stationData.
Proof.
  rewrite load_run. split; [split|].
  - intros (out & g & Hload).
    destruct (bucket_trips LocalTZA trips (fresh stationData))
      as [[[]|] g1] eqn:Hrun; [|discriminate Hload].
    eapply Forall_impl.
    + exact (bucket_trips_success_valid LocalTZA trips (fresh stationData)
               g1 length_empty_table length_empty_table Hrun).
    + intros t. apply dates_parse_valid.
  - intros Hv.
    destruct (bucket_trips_fresh_tables stationData trips) as (g & -> & _).
    { eapply Forall_impl; [exact Hv|]. intros t. apply dates_parse_valid. }
    rewrite computeStationTraffic_run. by eexists _, _.
  - intros out g Hload.
    destruct (bucket_trips LocalTZA trips (fresh stationData))
      as [[[]|] g1] eqn:Hrun; [|discriminate Hload].
    pose proof (bucket_trips_success_valid LocalTZA trips
                  (fresh stationData) g1
                  length_empty_table length_empty_table Hrun) as Hv.
    destruct (bucket_trips_fresh_tables stationData trips Hv)
      as (g2 & Hrun2 & Hs & _).
    rewrite Hrun in Hrun2. injection Hrun2 as <-.
    rewrite computeStationTraffic_run in Hload. injection Hload as <- <-.
    split; [done|]. by rewrite length_fmap, Hs.
Qed.

(** X13. The bucket pass only appends.  From tables of 1440 buckets, and
    whether it completes or raises part-way, it leaves tables of 1440
    buckets, leaves the station list alone, and every bucket still begins
    with what it held before. *)
Theorem bucket_pass_only_appends (trips : list Trip) (g0 : Globals) :
  length (departuresByMinute g0) = 1440%nat →
  length (arrivalsByMinute g0) = 1440%nat →
  let g := (bucket_trips LocalTZA trips g0).2 in
  length (departuresByMinute g) = 1440%nat
  ∧ length (arrivalsByMinute g) = 1440%nat
  ∧ stations g = stations g0
  ∧ ∀ i : nat,
      bucket (departuresByMinute g0) i `prefix_of`
        bucket (departuresByMinute g) i
      ∧ bucket (arrivalsByMinute g0) i `prefix_of`
          bucket (arrivalsByMinute g) i.
Proof.
  revert g0. induction trips as [|trip trips IH]; intros g0 Hd Ha; cbv zeta.
  - by split_and!.
  - unfold bucket_trips in *. simpl. unfold mbind, Exec_bind.
    destruct (valid_timestamps_or_not trip) as [Hv|Hbad].
    + destruct (bucket_trip_valid LocalTZA trip g0 Hd Ha Hv)
        as (g1 & -> & Hs1 & Hd1 & Ha1 & Hbd1 & Hba1).
      destruct (IH g1 Hd1 Ha1) as (Hd' & Ha' & Hs' & Hpre).
      split_and!; [done | done | congruence |].
      intros i. destruct (Hpre i) as [Hpd Hpa].
      rewrite Hbd1 in Hpd. rewrite Hba1 in Hpa.
      split; by eapply prefix_app_l.
    + destruct (bucket_trip_invalid LocalTZA trip g0 Hd Ha Hbad)
        as (g1 & -> & Hs1 & Ha1 & Hd1 & Hbd1).
      simpl. split_and!; [done | congruence | done |].
      intros i. rewrite Hbd1, Ha1. split; [by apply prefix_app_r | done].
Qed.

End PassAndQueries.

Lemma sample_dates_parse : Forall dates_parse sample_trips.
Proof. repeat constructor; discriminate. Defined.

Lemma window_returns_the_trips_of_the_window_witness :
  ∃ g,
    bucket_trips utc sample_trips (fresh sample_stations) = (Normal tt, g)
    ∧ ∀ t,
        (t ∈ filterByMinute (departuresByMinute g) 1430
         ↔ t ∈ sample_trips ∧ minute_in_window 1430 (start_minute utc t))
        ∧ (t ∈ filterByMinute (arrivalsByMinute g) 1430
           ↔ t ∈ sample_trips ∧ minute_in_window 1430 (end_minute utc t)).
Proof.
  apply (window_returns_the_trips_of_the_window utc sample_stations
           sample_trips 1430 sample_dates_parse).
  lia.
Defined.

Lemma computeStationTraffic_counts_the_window_witness :
  ∃ g out,
    bucket_trips utc sample_trips (fresh sample_stations) = (Normal tt, g)
    ∧ (computeStationTraffic sample_stations 700 g).1 = Normal out
    ∧ ∃ record : Obj,
        out !! 0%nat = Some record
        ∧ record !! "departures"%string
          = Some (VNumber
              (count_for start_station_id (Some (VString "A"))
                 (filter (λ t, minute_in_window 700 (start_minute utc t))
                    sample_trips))).
Proof.
  destruct (computeStationTraffic_counts_the_window utc sample_stations
              sample_trips 700 sample_dates_parse)
    as (g & out & Hrun & Hout & Hrec).
  - lia.
  - exists g, out. split_and!; [done | done |].
    destruct (Hrec 0%nat (station_named "A") eq_refl)
      as (record & Hr & Hd & _).
    exists record. split; [done | exact Hd].
Defined.

Lemma unknown_stations_are_left_out_witness :
  ∃ out,
    (computeStationTraffic sample_stations (-1) sample_globals).1 = Normal out
    ∧ sum_field "departures" out
      = Z.of_nat (length (filter
          (λ t, Some (VString (start_station_id t))
                ∈ short_names sample_stations)
          sample_trips))
    ∧ sum_field "arrivals" out
      = Z.of_nat (length (filter
          (λ t, Some (VString (end_station_id t))
                ∈ short_names sample_stations)
          sample_trips)).
Proof.
  exact (unknown_stations_are_left_out utc sample_stations sample_trips
           sample_globals sample_bucketed sample_short_names_unique).
Defined.

Lemma bucket_pass_only_appends_witness :
  let g := (bucket_trips utc [trip_night; trip_unparsed] sample_globals).2 in
  length (departuresByMinute g) = 1440%nat
  ∧ length (arrivalsByMinute g) = 1440%nat
  ∧ stations g = stations sample_globals
  ∧ ∀ i : nat,
      bucket (departuresByMinute sample_globals) i `prefix_of`
        bucket (departuresByMinute g) i
      ∧ bucket (arrivalsByMinute sample_globals) i `prefix_of`
          bucket (arrivalsByMinute g) i.
Proof.
  apply (bucket_pass_only_appends utc [trip_night; trip_unparsed]
           sample_globals).
  - vm_compute. reflexivity.
  - vm_compute. reflexivity.
Defined.

(** C2 as stated fails when a station is listed twice: the sample trip from
    A to B is bucketed, both its station ids are [short_name]s of the list,
    and yet the [departures] of the three records add up to 2 while there is
    one trip (the two records of A each count it). *)
Lemma unfiltered_counts_sum_counterexample :
  ∃ g out,
    bucket_trips utc [trip_noon] (fresh stations_with_duplicate)
    = (Normal tt, g)
    ∧ (∀ t, t ∈ [trip_noon] →
            Some (VString (start_station_id t))
            ∈ short_names stations_with_duplicate
            ∧ Some (VString (end_station_id t))
              ∈ short_names stations_with_duplicate)
    ∧ (computeStationTraffic stations_with_duplicate (-1) g).1 = Normal out
    ∧ sum_field "departures" out = 2
    ∧ sum_field "departures" out ≠ Z.of_nat (length [trip_noon])
    ∧ ¬ unique_short_names stations_with_duplicate.
Proof.
  exists (bucket_trips utc [trip_noon] (fresh stations_with_duplicate)).2.
  exists (with_traffic
            (rollup [trip_noon] (λ v, Z.of_nat (length v)) start_station_id)
            (rollup [trip_noon] (λ v, Z.of_nat (length v)) end_station_id)
          <$> stations_with_duplicate).
  split_and!.
  - vm_compute. reflexivity.
  - intros t Ht. apply list_elem_of_In in Ht. destruct Ht as [<-|[]].
    split; apply (bool_decide_unpack _); vm_compute; exact I.
  - vm_compute. reflexivity.
  - vm_compute. reflexivity.
  - vm_compute. discriminate.
  - intros Hu. apply (bool_decide_pack _) in Hu.
    vm_compute in Hu. exact Hu.
Qed.
